(** * AlanForVSCode, [src/tasks.ts]: a shallow embedding and its properties

    The development follows the source file top-down: the path
    conversions ([pathToBashPath], [bashPathsToWinPaths]), the shell
    resolver ([resolveBashShell]), the output parser run by
    [executeCommand] when the child process closes, the project-root
    locator ([resolveAlanRoot]) and the task list ([getTasksList]).

    JavaScript strings are sequences of UTF-16 code units; the regular
    expressions of the source are values of a small regex syntax run by a
    backtracking matcher written in continuation-passing style, the way
    the ECMAScript specification defines pattern matching. *)

From Stdlib Require Import ZArith NArith Ascii String.
From stdpp Require Import base option list.

Local Open Scope N_scope.

(** ** Strings *)

Module Js.

(** A code unit, and a string as the list of its code units. *)
Definition char : Type := N.
Definition jsstring : Type := list char.

(** The code units of an ASCII literal; all string constants of the
    source are ASCII. *)
Definition str (s : string) : jsstring :=
  N_of_ascii <$> list_ascii_of_string s.

Definition in_range (lo hi c : char) : bool := (lo <=? c) && (c <=? hi).

(** [[a-z]], [[a-zA-Z]] and [[0-9]]. *)
Definition is_lower (c : char) : bool := in_range 97 122 c.
Definition is_upper (c : char) : bool := in_range 65 90 c.
Definition is_letter (c : char) : bool := is_lower c || is_upper c.
Definition is_digit (c : char) : bool := in_range 48 57 c.

(** The ECMAScript line terminators LF, CR, U+2028 and U+2029: the
    characters that [.] does not match (no [s] flag in the source). *)
Definition is_line_terminator (c : char) : bool :=
  (c =? 10) || (c =? 13) || (c =? 8232) || (c =? 8233).
Definition is_dot (c : char) : bool := negb (is_line_terminator c).

Definition tab : char := 9.
Definition newline : char := 10.

(** [s.startsWith(p)]. *)
Fixpoint startsWith (s p : jsstring) {struct p} : bool :=
  match p, s with
  | [], _ => true
  | c :: p', d :: s' => (c =? d) && startsWith s' p'
  | _ :: _, [] => false
  end.

(** [a == b] on two strings. *)
Definition streq (a b : jsstring) : bool := bool_decide (a = b).

(** [s.split('\n')]: the pieces between the separators; a string
    without separator is one piece, also when it is empty. *)
Fixpoint split (sep : char) (s : jsstring) : list jsstring :=
  match s with
  | [] => [[]]
  | c :: s' =>
      if c =? sep then [] :: split sep s'
      else match split sep s' with
           | l :: ls => (c :: l) :: ls
           | [] => [[c]]
           end
  end.

(** [s.includes(p)]: [p] occurs somewhere in [s]. *)
Fixpoint includes (s p : jsstring) : bool :=
  startsWith s p ||
  match s with
  | [] => false
  | _ :: s' => includes s' p
  end.

End Js.

Import Js.

(** ** Regular expressions *)

Module Regex.

(** The pattern syntax the source uses.  Quantifiers are only ever
    applied to a one-character atom ([.*], [[0-9]+]), so [RStar] and
    [RPlus] carry the atom's character test. *)
Inductive regex : Type :=
  | RChar (c : char)                 (* a pattern character *)
  | RClass (p : char -> bool)        (* [...] or . *)
  | RStart                           (* ^ *)
  | REmpty
  | RSeq (r1 r2 : regex)
  | RAlt (r1 r2 : regex)             (* r1|r2 *)
  | RStar (p : char -> bool)         (* greedy atom* *)
  | RPlus (p : char -> bool)         (* greedy atom+ *)
  | RGroup (i : nat) (r : regex).    (* the i-th capturing group *)

(** A literal run of pattern characters. *)
Fixpoint rlit (l : jsstring) : regex :=
  match l with
  | [] => REmpty
  | c :: l' => RSeq (RChar c) (rlit l')
  end.

Definition lit (s : string) : regex := rlit (str s).

(** The matcher's state: the index reached, the input from there on,
    and the captures so far (index 0 is filled in by [exec]). *)
Record mstate : Type := MState {
  endIndex : nat;
  rest : jsstring;
  captures : list (option jsstring)
}.

Definition continuation : Type := mstate -> option mstate.

(** Greedy repetition of a character test: take one more character if
    it passes and the continuation then succeeds, else stop here. *)
Fixpoint rstar (p : char -> bool) (e : nat) (s : jsstring)
    (caps : list (option jsstring)) (k : continuation) : option mstate :=
  match s with
  | c :: s' =>
      if p c then
        match rstar p (S e) s' caps k with
        | Some z => Some z
        | None => k (MState e s caps)
        end
      else k (MState e s caps)
  | [] => k (MState e [] caps)
  end.

Definition set_capture (i : nat) (x y : mstate) : mstate :=
  MState (endIndex y) (rest y)
    (<[i := Some (take (endIndex y - endIndex x) (rest x))]> (captures y)).

Fixpoint rmatch (r : regex) (x : mstate) (k : continuation) : option mstate :=
  match r with
  | RChar c =>
      match rest x with
      | d :: s' => if c =? d then k (MState (S (endIndex x)) s' (captures x))
                   else None
      | [] => None
      end
  | RClass p =>
      match rest x with
      | d :: s' => if p d then k (MState (S (endIndex x)) s' (captures x))
                   else None
      | [] => None
      end
  | RStart => if Nat.eqb (endIndex x) 0 then k x else None
  | REmpty => k x
  | RSeq r1 r2 => rmatch r1 x (fun y => rmatch r2 y k)
  | RAlt r1 r2 =>
      match rmatch r1 x k with
      | Some z => Some z
      | None => rmatch r2 x k
      end
  | RStar p => rstar p (endIndex x) (rest x) (captures x) k
  | RPlus p =>
      match rest x with
      | d :: s' => if p d then rstar p (S (endIndex x)) s' (captures x) k
                   else None
      | [] => None
      end
  | RGroup i r1 => rmatch r1 x (fun y => k (set_capture i x y))
  end.

(** The number of capturing groups of a pattern. *)
Fixpoint ngroups (r : regex) : nat :=
  match r with
  | RSeq r1 r2 | RAlt r1 r2 => ngroups r1 + ngroups r2
  | RGroup _ r1 => S (ngroups r1)
  | _ => 0
  end.

(** One attempt at index [i], where [s] is the input from [i] on. *)
Definition match_at (r : regex) (i : nat) (s : jsstring) : option mstate :=
  rmatch r (MState i s (replicate (S (ngroups r)) None)) Some.

(** The match array: the matched text at index 0, then the captures. *)
Definition match_array (i : nat) (s : jsstring) (y : mstate)
    : list (option jsstring) :=
  <[0%nat := Some (take (endIndex y - i) s)]> (captures y).

(** The leftmost match at or after index [i]. *)
Fixpoint search (r : regex) (i : nat) (s : jsstring)
    : option (nat * list (option jsstring)) :=
  match match_at r i s with
  | Some y => Some (i, match_array i s y)
  | None =>
      match s with
      | [] => None
      | _ :: s' => search r (S i) s'
      end
  end.

(** [s.match(r)] for a pattern without the [g] flag. *)
Definition str_match (s : jsstring) (r : regex)
    : option (list (option jsstring)) :=
  snd <$> search r 0 s.

(** [r.test(s)]. *)
Definition test (r : regex) (s : jsstring) : bool :=
  bool_decide (is_Some (search r 0 s)).

(** [m[i]] of a match array; a group that took no part reads as the
    empty string, which is also how a replacement text renders it. *)
Definition group (m : list (option jsstring)) (i : nat) : jsstring :=
  default [] (mjoin (m !! i)).

(** A replacement text, split at its [$n] references. *)
Inductive titem : Type :=
  | TLit (l : jsstring)
  | TCap (n : nat).

Definition expand (tmpl : list titem) (m : list (option jsstring)) : jsstring :=
  mjoin ((fun t => match t with TLit l => l | TCap n => group m n end) <$> tmpl).

(** [s.replace(r, tmpl)] without the [g] flag: the leftmost match only. *)
Definition replace (s : jsstring) (r : regex) (tmpl : list titem) : jsstring :=
  match search r 0 s with
  | None => s
  | Some (i, m) =>
      take i s ++ expand tmpl m ++ drop (i + length (group m 0)) s
  end.

(** [s.replace(r, tmpl)] with the [g] flag.  [i] is the index of the
    head of [s]; [skip] counts the characters of the previous match
    still to be passed over.  After an empty match the scan moves on by
    one character, which is copied. *)
Fixpoint replace_from (r : regex) (tmpl : list titem)
    (i skip : nat) (s : jsstring) : jsstring :=
  match skip with
  | S sk =>
      match s with
      | [] => []
      | _ :: s' => replace_from r tmpl (S i) sk s'
      end
  | O =>
      match match_at r i s with
      | Some y =>
          let m := match_array i s y in
          expand tmpl m ++
          match s with
          | [] => []
          | c :: s' =>
              match length (group m 0) with
              | O => c :: replace_from r tmpl (S i) 0 s'
              | S sk => replace_from r tmpl (S i) sk s'
              end
          end
      | None =>
          match s with
          | [] => []
          | c :: s' => c :: replace_from r tmpl (S i) 0 s'
          end
      end
  end.

Definition replace_g (s : jsstring) (r : regex) (tmpl : list titem) : jsstring :=
  replace_from r tmpl 0 0 s.

End Regex.

Import Regex.

Infix ">>>" := RSeq (at level 60, right associativity).

(** ** Path conversion between the host and the shell *)

Definition wsl : jsstring := str "C:\Windows\System32\wsl.exe".
Definition wsl_bash : jsstring := str "C:\Windows\System32\bash.exe".
Definition git_bash_x64 : jsstring := str "C:\Program Files\Git\bin\bash.exe".
Definition git_bash_x32 : jsstring := str "C:\Program Files (x86)\Git\bin\bash.exe".
Definition linux_osx_bash : jsstring := str "/bin/bash".

Definition isWsl (shell : jsstring) : bool := streq shell wsl_bash.

(** [/([a-zA-Z]):/], [/\\/g], [/ /g] and [/\/mnt\/([a-z])\//g]. *)
Definition re_drive : regex := RGroup 1 (RClass is_letter) >>> lit ":".
Definition re_backslash : regex := lit "\".
Definition re_space : regex := lit " ".
Definition re_mnt : regex := lit "/mnt/" >>> RGroup 1 (RClass is_lower) >>> lit "/".

Definition pathToBashPath (path shell : jsstring) : jsstring :=
  replace_g
    (replace_g
       (replace path re_drive
          (if isWsl shell then [TLit (str "/mnt/"); TCap 1]
           else [TCap 1; TLit (str ":")]))
       re_backslash [TLit (str "/")])
    re_space [TLit (str "\ ")].

Definition bashPathsToWinPaths (string shell : jsstring) : jsstring :=
  if isWsl shell then replace_g string re_mnt [TCap 1; TLit (str ":/")]
  else string.

(** ** The shell resolver *)

(** What [resolveBashShell] does to the outside world, in order: a
    file-existence probe ([fs.exists]) or an error notification
    ([vscode.window.showErrorMessage]). *)
Inductive event : Type :=
  | Probe (file : jsstring)
  | ShowErrorMessage (message : jsstring).

Definition io (A : Type) : Type := list event * A.
Definition io_ret {A} (a : A) : io A := ([], a).
Definition io_bind {A B} (m : io A) (f : A -> io B) : io B :=
  let (t1, a) := m in let (t2, b) := f a in (t1 ++ t2, b).

Notation "'await' x <- m 'in' f" := (io_bind m (fun x => f))
  (at level 10, x name, m at level 100, f at level 200, only parsing).

(** [exists(file)], against a file system given as its existence test. *)
Definition exists_ (fs : jsstring -> bool) (file : jsstring) : io bool :=
  ([Probe file], fs file).

Definition showErrorMessage (message : jsstring) : io unit :=
  ([ShowErrorMessage message], tt).

Definition no_shell_error : jsstring :=
  str "Could not locate a bash shell for executing Alan tasks. Please set one in the extension's settings.".

(** [config] is the value of the [alan-definitions.taskShell] setting
    ([None] when it is undefined); the result is [None] when the
    function returns [undefined]. *)
Definition resolveBashShell (config : option jsstring) (platform : jsstring)
    (fs : jsstring -> bool) : io (option jsstring) :=
  match config with
  | Some (c :: shell) => io_ret (Some (c :: shell))
  | _ =>
      if streq platform (str "win32") then
        await w <- exists_ fs wsl in
        if w then io_ret (Some wsl_bash) else
        await g64 <- exists_ fs git_bash_x64 in
        if g64 then io_ret (Some git_bash_x64) else
        await g32 <- exists_ fs git_bash_x32 in
        if g32 then io_ret (Some git_bash_x32) else
        await _u <- showErrorMessage no_shell_error in
        io_ret None
      else io_ret (Some linux_osx_bash)
  end.

(** ** The output parser of [executeCommand] *)

Inductive DiagnosticSeverity : Type := Error | Warning | Information | Hint.

(** A line or column number.  [Int z] is the integer [z]; a Number is
    exact up to 2^53, and anything else (a longer digit string, the
    result of [parseInt] on text without a leading digit) is
    [Untracked]. *)
Inductive number : Type :=
  | Int (z : Z)
  | Untracked.

Definition max_exact : Z := 9007199254740992.

Definition digit_value (c : char) : Z := Z.of_N (c - 48).

(** The value of the leading decimal digits of [s]. *)
Fixpoint parse_digits (acc : Z) (s : jsstring) : Z :=
  match s with
  | c :: s' =>
      if is_digit c then parse_digits (10 * acc + digit_value c) s' else acc
  | [] => acc
  end.

(** [parseInt(s, 10)] on text that starts with a decimal digit, the
    only text the parser hands to it. *)
Definition parseInt (s : jsstring) : number :=
  match s with
  | c :: _ =>
      if is_digit c then
        let v := parse_digits 0 s in
        if (v <=? max_exact)%Z then Int v else Untracked
      else Untracked
  | [] => Untracked
  end.

(** [n - 1]. *)
Definition pred1 (n : number) : number :=
  match n with
  | Int z => Int (z - 1)
  | Untracked => Untracked
  end.

Record Position : Type := mkPosition { line : number; character : number }.
Record Range : Type := mkRange { start : Position; end_ : Position }.

(** The editor's constructors, as its API documents them.  A
    constructor that throws gives [None].

    [new vscode.Position(line, character)] throws on a negative line or
    character.  A number the model does not track is a digit string
    beyond 2^53 less one, which is not negative. *)
Definition is_negative (n : number) : bool :=
  match n with
  | Int z => (z <? 0)%Z
  | Untracked => false
  end.

Definition newPosition (l c : number) : option Position :=
  if is_negative l || is_negative c then None else Some (mkPosition l c).

(** [a.isBefore(b)]: the lines decide, then the characters; [None] when
    a number the comparison needs is not tracked. *)
Definition isBefore (a b : Position) : option bool :=
  match line a, line b with
  | Int la, Int lb =>
      if (la <? lb)%Z then Some true
      else if (lb <? la)%Z then Some false
      else
        match character a, character b with
        | Int ca, Int cb => Some (ca <? cb)%Z
        | _, _ => None
        end
  | _, _ => None
  end.

(** [new vscode.Range(startLine, startCharacter, endLine, endCharacter)]
    makes the two positions, and keeps them in this order when the first
    is before the second and in the other order when it is not.  When
    the model cannot tell, the range is one it does not track. *)
Definition newRange (l c el ec : number) : option Range :=
  match newPosition l c, newPosition el ec with
  | Some a, Some b =>
      match isBefore a b with
      | Some true => Some (mkRange a b)
      | Some false => Some (mkRange b a)
      | None =>
          Some (mkRange (mkPosition Untracked Untracked)
                        (mkPosition Untracked Untracked))
      end
  | _, _ => None
  end.

Record Diagnostic : Type := mkDiagnostic {
  range : Range;
  message : jsstring;
  severity : DiagnosticSeverity
}.

(** [new vscode.Diagnostic(range, message, severity)] throws when the
    message is not set, which an empty string is not. *)
Definition newDiagnostic (range : Range) (message : jsstring)
    (severity : DiagnosticSeverity) : option Diagnostic :=
  match message with
  | [] => None
  | _ => Some (mkDiagnostic range message severity)
  end.

(** [vscode.Uri.file(path)], kept as the path it was made from. *)
Definition Uri : Type := jsstring.

Definition getSeverity (severity : jsstring) : DiagnosticSeverity :=
  if streq severity (str "error") then Error
  else if streq severity (str "warning") then Warning
  else Information.

(** What every pattern starts with: [((?:\/|[a-zA-Z]:).*\.EXT)] behind
    its [^]; then the severity group [(error|warning|info)] and a number
    group [([0-9]+)]. *)
Definition path_head : regex :=
  RAlt (lit "/") (RClass is_letter >>> lit ":").
Definition re_file (ext : string) : regex :=
  RGroup 1 (path_head >>> RStar is_dot >>> lit ext).
Definition re_severity (i : nat) : regex :=
  RGroup i (RAlt (lit "error") (RAlt (lit "warning") (lit "info"))).
Definition re_number (i : nat) : regex := RGroup i (RPlus is_digit).

Definition re_range : regex :=
  RStart >>> re_file ".alan" >>> lit " from "
    >>> re_number 2 >>> lit ":" >>> re_number 3 >>> lit " to "
    >>> re_number 4 >>> lit ":" >>> re_number 5 >>> lit " "
    >>> re_severity 6 >>> lit ": " >>> RGroup 7 (RStar is_dot).

Definition re_locat : regex :=
  RStart >>> re_file ".alan" >>> lit " at "
    >>> re_number 2 >>> lit ":" >>> re_number 3 >>> lit " "
    >>> re_severity 4 >>> lit ": " >>> RGroup 5 (RStar is_dot).

Definition re_link : regex :=
  RStart >>> re_file ".link" >>> lit " "
    >>> re_severity 2 >>> lit ": " >>> RGroup 3 (RStar is_dot).

Definition re_other : regex :=
  RStart >>> re_file ".alan" >>> lit " "
    >>> re_severity 2 >>> lit ": " >>> RGroup 3 (RStar is_dot).

(** The parser's variables.  Diagnostic objects live in [heap] and are
    referred to by their index there: [current_diagnostic] and the entry
    pushed on [diagnostics] name the same object, so that appending to
    the current diagnostic's message is seen through the list.
    [thrown] tells that an exception has left the [close] handler;
    nothing catches it there. *)
Record parser : Type := mkParser {
  heap : list Diagnostic;
  diagnostics : list (Uri * list nat);
  current_diagnostic : option nat;
  thrown : bool
}.

Definition parser_init : parser := mkParser [] [] None false.

(** [current_diagnostic = new vscode.Diagnostic(...);
    diagnostics.push([file, [current_diagnostic]])]. *)
Definition push (st : parser) (file : Uri) (d : Diagnostic) : parser :=
  let a := length (heap st) in
  mkParser (heap st ++ [d]) (diagnostics st ++ [(file, [a])]) (Some a)
    (thrown st).

(** A constructor throws: the variables are as they were. *)
Definition throw (st : parser) : parser :=
  mkParser (heap st) (diagnostics st) (current_diagnostic st) true.

(** The three statements that end each branch of the body:
    [const range = new vscode.Range(...);
     current_diagnostic = new vscode.Diagnostic(range, message, ...);
     diagnostics.push([file, [current_diagnostic]])]. *)
Definition report (st : parser) (file : Uri) (range : option Range)
    (message : jsstring) (severity : DiagnosticSeverity) : parser :=
  match range ≫= (fun r => newDiagnostic r message severity) with
  | Some d => push st file d
  | None => throw st
  end.

Definition append_message (text : jsstring) (d : Diagnostic) : Diagnostic :=
  mkDiagnostic (range d) (message d ++ text) (severity d).

(** The body of [lines.forEach]. *)
Definition scan_line (st : parser) (ln : jsstring) : parser :=
  match str_match ln re_range with
  | Some m =>
      report st (group m 1)
        (newRange (pred1 (parseInt (group m 2))) (pred1 (parseInt (group m 3)))
                  (pred1 (parseInt (group m 4))) (pred1 (parseInt (group m 5))))
        (group m 7) (getSeverity (group m 6))
  | None =>
  match str_match ln re_locat with
  | Some m =>
      let l := parseInt (group m 2) in
      let c := parseInt (group m 3) in
      report st (group m 1)
        (newRange (pred1 l) (pred1 c) (pred1 l) (pred1 c))
        (group m 5) (getSeverity (group m 4))
  | None =>
  match str_match ln re_link with
  | Some m =>
      report st (group m 1) (newRange (Int 0) (Int 0) (Int 0) (Int 0))
        (group m 3) (getSeverity (group m 2))
  | None =>
  match str_match ln re_other with
  | Some m =>
      report st (group m 1) (newRange (Int 0) (Int 0) (Int 0) (Int 0))
        (group m 3) (getSeverity (group m 2))
  | None =>
      match current_diagnostic st with
      | Some a =>
          if startsWith ln [tab]
          then mkParser (alter (append_message (newline :: ln)) a (heap st))
                        (diagnostics st) (current_diagnostic st) (thrown st)
          else st
      | None => st
      end
  end end end end.

(** [lines.forEach]: the body runs on the lines in turn, and on none
    any more once an exception has left the loop. *)
Definition scan_lines (lines : list jsstring) : parser :=
  foldl (fun st ln => if thrown st then st else scan_line st ln)
    parser_init lines.

(** What the collection holds when the [close] handler is left: what
    [diagnostics_collection.set(diagnostics)] receives, every entry
    with its diagnostics read from the heap; and nothing when an
    exception has left the handler, for [set] is not reached then and
    [executeCommand] had cleared the collection at its start. *)
Definition read_diagnostics (st : parser) : list (Uri * list Diagnostic) :=
  if thrown st then []
  else
    (fun e : Uri * list nat =>
       (e.1, omap (fun a : nat => heap st !! a) e.2)) <$> diagnostics st.

(** The [close] handler, from the accumulated output to the entries
    in the collection. *)
Definition parse_output (output_acc : jsstring) : list (Uri * list Diagnostic) :=
  read_diagnostics (scan_lines (split newline output_acc)).

(** The [data] handler: every chunk of the stripped stream goes through
    [bashPathsToWinPaths] and is appended to [output_acc]. *)
Definition on_data (shell : jsstring) (output_acc data : jsstring) : jsstring :=
  output_acc ++ bashPathsToWinPaths data shell.

(** The diagnostics of a run whose output came in the chunks [datas]. *)
Definition executeCommand_diagnostics (shell : jsstring)
    (datas : list jsstring) : list (Uri * list Diagnostic) :=
  parse_output (foldl (on_data shell) [] datas).

(** ** The project-root locator *)

(** Node's [path] module, of which the source uses [parse(p).root],
    [dirname], [join] and [basename].  Node picks the POSIX or the
    Windows flavour with the platform, hence an interface. *)
Class PathModule : Type := {
  parse_root : jsstring -> jsstring;
  dirname : jsstring -> jsstring;
  join : jsstring -> jsstring -> jsstring;
  basename : jsstring -> jsstring
}.

(** How a promise ends. *)
Inductive settled (A : Type) : Type :=
  | Resolved (a : A)
  | Rejected.
Arguments Resolved {A} a.
Arguments Rejected {A}.

Section Locator.
Context `{PathModule}.
Variable fs : jsstring -> bool.

(** The inner [find].  Each call is one turn of the event loop and
    nothing bounds their number, so the model counts them: [None]
    means that the promise is still pending after [fuel] calls. *)
Fixpoint find (root : jsstring) (fuel : nat) (curdir : jsstring)
    : option (settled jsstring) :=
  match fuel with
  | O => None
  | S fuel' =>
      let alan_file := join curdir (str "alan") in
      if streq curdir root then Some Rejected
      else if negb (fs alan_file) then find root fuel' (dirname curdir)
      else Some (Resolved curdir)
  end.

Definition resolveAlanRoot (fuel : nat) (file_dir : jsstring)
    : option (settled jsstring) :=
  let root := parse_root file_dir in
  find root fuel file_dir.
End Locator.

(** ** The task list *)

Inductive TaskGroup : Type := Clean | Build | Rebuild | Test.

Record ShellExecutionOptions : Type := mkOptions {
  executable : option jsstring;
  cwd : jsstring;
  shellArgs : list jsstring
}.

Record PresentationOptions : Type := mkPresentation {
  clear : bool;
  reveal_always : bool;
  showReuseMessage : bool;
  focus : bool
}.

(** A task.  [options] is the index of the task's execution options
    among the option objects of the task list: the source hands the one
    [default_options] object to every task. *)
Record Task : Type := mkTask {
  definition_type : jsstring;
  definition_task : jsstring;
  name : jsstring;
  source : jsstring;
  commandLine : jsstring;
  options : nat;
  group_ : TaskGroup;
  presentationOptions : option PresentationOptions
}.

Record TaskList : Type := mkTaskList {
  result : list Task;
  option_objects : list ShellExecutionOptions
}.

Definition no_tasks : TaskList := mkTaskList [] [].

Definition fetch_task (alan : jsstring) : Task :=
  mkTask (str "alan") (str "fetch") (str "fetch") (str "alan")
    (alan ++ str " fetch") 0 Clean
    (Some (mkPresentation true true false false)).

Definition build_task : Task :=
  mkTask (str "alan") (str "build") (str "build") (str "alan")
    (str "${command:alan.tasks.build}") 0 Build None.

Definition migration_task : Task :=
  mkTask (str "alan") (str "generate migration") (str "generate migration")
    (str "alan") (str "${command:alan.tasks.generateMigration}") 0 Clean None.

Definition package_task : Task :=
  mkTask (str "alan") (str "package") (str "package") (str "alan")
    (str "${command:alan.tasks.package}") 0 Build None.

Section Tasks.
Context `{PathModule}.

(** The editor and the machine as [getTasksList] reads them:
    the workspace folder, the [taskShell] setting, the platform, the
    file system and the file name of the active editor's document
    ([None] without an active editor, where reading it throws). *)
Record host : Type := mkHost {
  rootPath : option jsstring;
  taskShell : option jsstring;
  platform : jsstring;
  fileExists : jsstring -> bool;
  activeFileName : option jsstring
}.

(** [None] while the returned promise is pending (see [find]). *)
Definition getTasksList (fuel : nat) (h : host) : option TaskList :=
  match rootPath h with
  | None | Some [] => Some no_tasks
  | Some _ =>
      let shell := (resolveBashShell (taskShell h) (platform h) (fileExists h)).2 in
      match activeFileName h with
      | None => Some no_tasks
      | Some active_file_name =>
          let active_file_dirname := dirname active_file_name in
          match resolveAlanRoot (fileExists h) fuel active_file_dirname with
          | None => None
          | Some Rejected => Some no_tasks
          | Some (Resolved alan_root) =>
              let sh := default [] shell in
              let alan_root_folder := pathToBashPath alan_root sh in
              let alan := pathToBashPath (alan_root ++ str "/alan") sh in
              let default_options :=
                mkOptions shell (str "${fileDirname}") [str "-c"] in
              let tasks := [fetch_task alan; build_task; migration_task] in
              if streq (basename active_file_name) (str "connections.alan")
              then Some (mkTaskList (tasks ++ [package_task])
                           [mkOptions (executable default_options)
                              alan_root_folder (shellArgs default_options)])
              else Some (mkTaskList tasks [default_options])
          end
      end
  end.
End Tasks.

(** ** The commands behind the tasks *)

(** The child process that [executeCommand] starts: the shell, run
    with [-c] and the command line in the working directory. *)
Record command : Type := mkCommand {
  shell_command : jsstring;
  command_cwd : jsstring;
  command_shell : jsstring
}.

(** [executeCommand] up to
    [proc.spawn(shell, ['-c', shell_command], { cwd: cwd })].  Node
    throws when the file to run is not a string or is the empty string;
    a shell that cannot be run is told later, by the [error] event. *)
Definition executeCommand_spawn (shell_command cwd : jsstring)
    (shell : option jsstring) : option command :=
  match shell with
  | Some (c :: sh) => Some (mkCommand shell_command cwd (c :: sh))
  | _ => None
  end.

(** The promise of an [async] function whose last statement is the
    call of [executeCommand]. *)
Definition settle_spawn (c : option command) : option (settled command) :=
  match c with
  | Some c => Some (Resolved c)
  | None => Some Rejected
  end.

Section Commands.
Context `{PathModule}.

(** [build].  Nothing catches here: without an active editor reading
    its document throws, a rejected [resolveAlanRoot] rejects the whole
    call, and so does an exception of [executeCommand].  [None] while
    the promise is pending; [Resolved c] when the process [c] was
    started. *)
Definition build (fuel : nat) (h : host) : option (settled command) :=
  let shell := (resolveBashShell (taskShell h) (platform h) (fileExists h)).2 in
  match activeFileName h with
  | None => Some Rejected
  | Some active_file_name =>
      let active_file_dirname := dirname active_file_name in
      match resolveAlanRoot (fileExists h) fuel active_file_dirname with
      | None => None
      | Some Rejected => Some Rejected
      | Some (Resolved alan_root) =>
          let alan := pathToBashPath (alan_root ++ str "/alan") (default [] shell) in
          settle_spawn
            (executeCommand_spawn (alan ++ str " build") active_file_dirname shell)
      end
  end.

(** [package_deployment]. *)
Definition package_deployment (fuel : nat) (h : host)
    : option (settled command) :=
  let shell := (resolveBashShell (taskShell h) (platform h) (fileExists h)).2 in
  match activeFileName h with
  | None => Some Rejected
  | Some active_file_name =>
      let active_file_dirname := dirname active_file_name in
      let active_file_dirname_bash :=
        pathToBashPath active_file_dirname (default [] shell) in
      match resolveAlanRoot (fileExists h) fuel active_file_dirname with
      | None => None
      | Some Rejected => Some Rejected
      | Some (Resolved alan_root) =>
          settle_spawn
            (executeCommand_spawn
               (str "./alan package ./dist/project.pkg " ++ active_file_dirname_bash)
               alan_root shell)
      end
  end.
End Commands.

(** ** The earlier [extension.ts] *)

(** The functions that [tasks.ts] took over from the extension's main
    file, as that file had them: the shell was resolved synchronously
    and was [undefined] off Windows, the WSL shell was another file, and
    the first locator resolved to the [alan] file itself. *)
Module Extension.

Definition wsl_bash : jsstring := str "c:\windows\sysnative\bash.exe".

Definition isWsl (shell : jsstring) : bool := streq shell wsl_bash.

Definition normalizePath (path shell : jsstring) : jsstring :=
  replace_g
    (replace_g
       (replace path re_drive
          (if isWsl shell then [TLit (str "/mnt/"); TCap 1]
           else [TCap 1; TLit (str ":")]))
       re_backslash [TLit (str "/")])
    re_space [TLit (str "\ ")].

(** [fs.existsSync(file)]. *)
Definition existsSync (fs : jsstring -> bool) (file : jsstring) : io bool :=
  ([Probe file], fs file).

Definition resolveBashShell (config : option jsstring) (platform : jsstring)
    (fs : jsstring -> bool) : io (option jsstring) :=
  match config with
  | Some (c :: shell) => io_ret (Some (c :: shell))
  | _ =>
      if streq platform (str "win32") then
        await w <- existsSync fs wsl in
        if w then io_ret (Some wsl_bash) else
        await g64 <- existsSync fs git_bash_x64 in
        if g64 then io_ret (Some git_bash_x64) else
        await g32 <- existsSync fs git_bash_x32 in
        if g32 then io_ret (Some git_bash_x32) else
        await _u <- showErrorMessage no_shell_error in
        io_ret None
      else io_ret None
  end.

Section Locator.
Context `{PathModule}.
Variable fs : jsstring -> bool.

(** The inner [find] of [resolveAlan], counted as the one above. *)
Fixpoint find (root : jsstring) (fuel : nat) (curdir : jsstring)
    : option (settled jsstring) :=
  match fuel with
  | O => None
  | S fuel' =>
      let alanFile := join curdir (str "alan") in
      if streq curdir root then Some Rejected
      else if negb (fs alanFile) then find root fuel' (dirname curdir)
      else Some (Resolved alanFile)
  end.

Definition resolveAlan (fuel : nat) (file_dir : jsstring)
    : option (settled jsstring) :=
  let root := parse_root file_dir in
  find root fuel file_dir.
End Locator.

End Extension.

(** The POSIX flavour of the interface, after Node's [lib/path.js]. *)
Module Posix.

Definition slash : char := 47.
Definition is_slash (c : char) : bool := c =? slash.

Fixpoint drop_while (p : char -> bool) (s : jsstring) : jsstring :=
  match s with
  | c :: s' => if p c then drop_while p s' else s
  | [] => []
  end.

Fixpoint take_while (p : char -> bool) (s : jsstring) : jsstring :=
  match s with
  | c :: s' => if p c then c :: take_while p s' else []
  | [] => []
  end.

Definition posix_root (p : jsstring) : jsstring :=
  match p with
  | c :: _ => if is_slash c then [slash] else []
  | [] => []
  end.

(** Scanning from the end: pass the trailing separators, pass the
    last segment, and cut at the separator before it. *)
Definition posix_dirname (p : jsstring) : jsstring :=
  match p with
  | [] => str "."
  | c0 :: tl =>
      let r := drop_while (fun c => negb (is_slash c))
                 (drop_while is_slash (reverse tl)) in
      match r with
      | [] => if is_slash c0 then str "/" else str "."
      | _ :: r' =>
          if is_slash c0 && bool_decide (r' = []) then str "//"
          else c0 :: reverse r'
      end
  end.

Definition posix_basename (p : jsstring) : jsstring :=
  reverse (take_while (fun c => negb (is_slash c))
             (drop_while is_slash (reverse p))).

(** [normalizeString]: the segments of the path are taken in turn;
    an empty one and [.] are passed over, [..] takes the last segment
    kept away, or is kept itself where the path may go above its start
    and there is nothing to take away, and any other is kept.  [res]
    has the segments kept, the last one first. *)
Definition normalize_segment (allowAboveRoot : bool) (res : list jsstring)
    (seg : jsstring) : list jsstring :=
  if streq seg [] || streq seg (str ".") then res
  else if streq seg (str "..") then
    match res with
    | top :: rest =>
        if streq top (str "..") then
          if allowAboveRoot then seg :: res else res
        else rest
    | [] => if allowAboveRoot then [seg] else []
    end
  else seg :: res.

Fixpoint unsplit (segs : list jsstring) : jsstring :=
  match segs with
  | [] => []
  | [seg] => seg
  | seg :: segs' => seg ++ slash :: unsplit segs'
  end.

Definition normalizeString (path : jsstring) (allowAboveRoot : bool)
    : jsstring :=
  unsplit
    (reverse (foldl (normalize_segment allowAboveRoot) [] (split slash path))).

Definition ends_with_slash (p : jsstring) : bool :=
  match reverse p with
  | c :: _ => is_slash c
  | [] => false
  end.

(** [normalize]. *)
Definition posix_normalize (path : jsstring) : jsstring :=
  match path with
  | [] => str "."
  | c :: _ =>
      let isAbsolute := is_slash c in
      let trailingSeparator := ends_with_slash path in
      match normalizeString path (negb isAbsolute) with
      | [] =>
          if isAbsolute then str "/"
          else if trailingSeparator then str "./" else str "."
      | d :: p =>
          let path := if trailingSeparator then (d :: p) ++ [slash] else d :: p in
          if isAbsolute then slash :: path else path
      end
  end.

(** [join] of two paths: the non-empty ones with a separator between
    them, normalized. *)
Definition posix_join (a b : jsstring) : jsstring :=
  match a, b with
  | [], [] => str "."
  | [], _ => posix_normalize b
  | _, [] => posix_normalize a
  | _, _ => posix_normalize (a ++ slash :: b)
  end.

#[export] Instance posix : PathModule := {|
  parse_root := posix_root;
  dirname := posix_dirname;
  join := posix_join;
  basename := posix_basename
|}.

End Posix.

(** ** Words for the properties *)

(** The definitions below are not in the source: they name what the
    properties speak of. *)

(** *** Text and path conversion *)

(** Where a run stops: at the end of the text or before a character
    that fails the test. *)
Definition stops (p : char -> bool) (s : jsstring) : bool :=
  match s with
  | [] => true
  | c :: _ => negb (p c)
  end.

(** What [replace(/x/g, text)] does for a single character [x]. *)
Definition subst_char (x : char) (text : jsstring) (c : char) : jsstring :=
  if x =? c then text else [c].

(** What the two global replacements of [pathToBashPath] do to one
    character: a backslash becomes a slash, a space gets a backslash
    before it. *)
Definition to_shell_char (c : char) : jsstring :=
  if 92 =? c then [47] else if 32 =? c then [92; 32] else [c].

(** A backslash becomes a slash. *)
Definition to_slash (c : char) : char := if 92 =? c then 47 else c.

(** The round trip as the specification words it: forward under WSL,
    then back under WSL. *)
Definition wsl_round_trip (path : jsstring) : jsstring :=
  bashPathsToWinPaths (pathToBashPath path wsl_bash) wsl_bash.

(** *** The parser read as a list of entries *)

(** The entry of a report: the file and the diagnostic, when both
    constructors return. *)
Definition entry (file : Uri) (range : option Range) (message : jsstring)
    (severity : DiagnosticSeverity) : option (Uri * Diagnostic) :=
  match range ≫= (fun r => newDiagnostic r message severity) with
  | Some d => Some (file, d)
  | None => None
  end.

(** What a line does, the four patterns tried in the order of the
    source: [None] when it matches none of them, [Some None] when it
    matches one and a constructor throws, [Some (Some e)] when it
    reports the entry [e]. *)
Definition classify (ln : jsstring) : option (option (Uri * Diagnostic)) :=
  match str_match ln re_range with
  | Some m =>
      Some (entry (group m 1)
        (newRange (pred1 (parseInt (group m 2))) (pred1 (parseInt (group m 3)))
                  (pred1 (parseInt (group m 4))) (pred1 (parseInt (group m 5))))
        (group m 7) (getSeverity (group m 6)))
  | None =>
  match str_match ln re_locat with
  | Some m =>
      Some (entry (group m 1)
        (newRange (pred1 (parseInt (group m 2))) (pred1 (parseInt (group m 3)))
                  (pred1 (parseInt (group m 2))) (pred1 (parseInt (group m 3))))
        (group m 5) (getSeverity (group m 4)))
  | None =>
  match str_match ln re_link with
  | Some m =>
      Some (entry (group m 1) (newRange (Int 0) (Int 0) (Int 0) (Int 0))
        (group m 3) (getSeverity (group m 2)))
  | None =>
  match str_match ln re_other with
  | Some m =>
      Some (entry (group m 1) (newRange (Int 0) (Int 0) (Int 0) (Int 0))
        (group m 3) (getSeverity (group m 2)))
  | None => None
  end end end end.

(** A line on which a constructor throws. *)
Definition throws (ln : jsstring) : bool :=
  match classify ln with
  | Some None => true
  | _ => false
  end.

(** A line that matches one of the four patterns. *)
Definition is_diagnostic_line (ln : jsstring) : bool :=
  bool_decide (is_Some (str_match ln re_range))
  || bool_decide (is_Some (str_match ln re_locat))
  || bool_decide (is_Some (str_match ln re_link))
  || bool_decide (is_Some (str_match ln re_other)).

(** The entries of a scan without exception as a plain list, one file
    and one diagnostic each, in the order of their creation: a line
    that reports adds an entry, a continuation line adds its text to the
    last entry. *)
Definition note (text : jsstring) (e : Uri * Diagnostic) : Uri * Diagnostic :=
  (e.1, append_message text e.2).

Definition record_line (l : list (Uri * Diagnostic)) (ln : jsstring)
    : list (Uri * Diagnostic) :=
  match classify ln with
  | Some (Some e) => l ++ [e]
  | Some None => l
  | None =>
      if startsWith ln [tab] then alter (note (newline :: ln)) (length l - 1)%nat l
      else l
  end.

Definition record_lines (lines : list jsstring) : list (Uri * Diagnostic) :=
  foldl record_line [] lines.

(** The parser's variables hold the list [l]: nothing was thrown, the
    heap has its diagnostics, entry [i] of [diagnostics] names object
    [i], and the current diagnostic is the last one. *)
Definition holds (st : parser) (l : list (Uri * Diagnostic)) : Prop :=
  thrown st = false /\
  heap st = l.*2 /\
  diagnostics st = imap (fun i e => (e.1, [i])) l /\
  current_diagnostic st =
    match l with [] => None | _ => Some (length l - 1)%nat end.

(** What the collection holds for such a list. *)
Definition installed (l : list (Uri * Diagnostic)) : list (Uri * list Diagnostic) :=
  (fun e => (e.1, [e.2])) <$> l.

(** *** The shape of a diagnostic line *)

(** How a reported path starts: [/], or a drive letter and a colon. *)
Definition is_path_head (hd : jsstring) : bool :=
  match hd with
  | [c] => 47 =? c
  | [c; d] => is_letter c && (58 =? d)
  | _ => false
  end.

(** A line or column number as printed: one decimal digit or more. *)
Definition is_number (d : jsstring) : bool :=
  match d with
  | [] => false
  | _ => forallb is_digit d
  end.

(** The number a run of digits denotes. *)
Definition decimal (d : jsstring) : Z := parse_digits 0 d.

(** One of the three severity words. *)
Definition is_severity (sev : jsstring) : bool :=
  streq sev (str "error") || streq sev (str "warning") || streq sev (str "info").


Definition locat_tail (l1 c1 sev msg tl : jsstring) : jsstring :=
  str " at " ++ l1 ++ str ":" ++ c1 ++ str " " ++ sev ++ str ": " ++ msg ++ tl.

(** *** Directories, file systems and hosts of the examples *)

(** The [n]-th directory above [dir]. *)
Definition up `{PathModule} (n : nat) (dir : jsstring) : jsstring :=
  Nat.iter n dirname dir.

(** A file system whose only file is [file]. *)
Definition only_file (file : string) : jsstring -> bool :=
  fun f => streq f (str file).

(** A POSIX host with the project root [/p]. *)
Definition host_with (file : string) : host :=
  mkHost (Some (str "/p")) None (str "linux") (only_file "/p/alan")
    (Some (str file)).

(** A task whose definition names it [package]. *)
Definition is_package (t : Task) : bool :=
  streq (definition_task t) (str "package").

(** *** Escaped text *)

(** Every space has a backslash right before it, and every backslash
    a space right behind it. *)
Fixpoint well_escaped (s : jsstring) : bool :=
  match s with
  | [] => true
  | c :: t =>
      if 92 =? c then
        match t with
        | d :: s' => (32 =? d) && well_escaped s'
        | [] => false
        end
      else negb (32 =? c) && well_escaped t
  end.

(** The text with the backslash taken off every escaped space. *)
Fixpoint unescape (s : jsstring) : jsstring :=
  match s with
  | [] => []
  | c :: t =>
      match t with
      | d :: s' =>
          if (92 =? c) && (32 =? d) then 32 :: unescape s'
          else c :: unescape t
      | [] => [c]
      end
  end.

(** *** More shapes of lines *)

(** What follows the path on a line without position; [tl] as above. *)
Definition plain_tail (sev msg tl : jsstring) : jsstring :=
  str " " ++ sev ++ str ": " ++ msg ++ tl.

(** The line starts with [/], or with a letter and a colon. *)
Definition starts_like_path (ln : jsstring) : bool :=
  match ln with
  | c :: t =>
      (47 =? c)
      || (is_letter c && match t with d :: _ => 58 =? d | [] => false end)
  | [] => false
  end.




(** [s.endsWith(p)]. *)
Definition endsWith (s p : jsstring) : bool :=
  startsWith (reverse s) (reverse p).

(** A file as the parser reports it: it starts like a path, has no line
    terminator in it and ends in [.alan] or [.link]. *)
Definition is_reported_file (f : jsstring) : bool :=
  starts_like_path f && forallb is_dot f
  && (endsWith f (str ".alan") || endsWith f (str ".link")).

(** The capturing group [i] occurs in the pattern. *)
Fixpoint sets (r : regex) (i : nat) : bool :=
  match r with
  | RSeq r1 r2 | RAlt r1 r2 => sets r1 i || sets r2 i
  | RGroup j r1 => Nat.eqb i j || sets r1 i
  | _ => false
  end.

(** * Properties *)

(** Character tests stay folded during simplification. *)
#[local] Arguments N.eqb : simpl never.
#[local] Arguments N.leb : simpl never.
#[local] Arguments is_lower : simpl never.
#[local] Arguments is_upper : simpl never.
#[local] Arguments is_letter : simpl never.
#[local] Arguments is_digit : simpl never.
#[local] Arguments is_dot : simpl never.
#[local] Arguments is_line_terminator : simpl never.

(** Every string literal in the goal, as the list of its code units. *)
Ltac norm_str :=
  unfold lit;
  repeat match goal with
  | |- context [str ?s] =>
      let v := eval vm_compute in (str s) in change (str s) with v
  end.

(** ** Strings and the matcher *)

Section StringFacts.
Implicit Types s p l : jsstring.

Lemma startsWith_app_same l s : startsWith (l ++ s) l = true.
Proof. induction l as [|c l IH]; simpl; [done|]. by rewrite N.eqb_refl. Qed.

Lemma startsWith_app s a b :
  startsWith s (a ++ b) = startsWith s a && startsWith (drop (length a) s) b.
Proof.
  revert s. induction a as [|c a IH]; intros s; simpl; [done|].
  destruct s as [|d s]; simpl; [done|].
  rewrite IH. by rewrite andb_assoc.
Qed.

Lemma includes_drop s p n :
  includes s p = false -> startsWith (drop n s) p = false.
Proof.
  revert s. induction n as [|n IH]; intros s Hs.
  - rewrite drop_0. destruct s; simpl in Hs; by apply orb_false_elim in Hs as [? _].
  - destruct s as [|c s]; simpl in Hs; apply orb_false_elim in Hs as [H0 Hs].
    + done.
    + simpl. by apply IH.
Qed.
End StringFacts.

Section MatcherFacts.
Implicit Types (k : continuation) (caps : list (option jsstring)).

(** A literal either consumes itself or fails. *)
Lemma rmatch_rlit l e s caps k :
  rmatch (rlit l) (MState e s caps) k =
  if startsWith s l
  then k (MState (e + length l) (drop (length l) s) caps)
  else None.
Proof.
  revert e s. induction l as [|c l IH]; intros e s; simpl.
  - by rewrite Nat.add_0_r, drop_0.
  - destruct s as [|d s]; simpl; [done|].
    destruct (c =? d); simpl; [|done].
    rewrite IH. by rewrite Nat.add_succ_r.
Qed.

Lemma rmatch_rlit_app l e s caps k :
  rmatch (rlit l) (MState e (l ++ s) caps) k =
  k (MState (e + length l) s caps).
Proof.
  rewrite rmatch_rlit, startsWith_app_same.
  by rewrite drop_app_length.
Qed.

(** When the continuation fails wherever the repetition may stop, the
    repetition fails. *)
Lemma rstar_none p e s caps k :
  (forall n, (n <= length s)%nat -> forallb p (take n s) = true ->
             k (MState (e + n) (drop n s) caps) = None) ->
  rstar p e s caps k = None.
Proof.
  revert e. induction s as [|c s IH]; intros e Hk; simpl.
  - specialize (Hk 0%nat). rewrite Nat.add_0_r in Hk. by apply Hk.
  - assert (H0 : k (MState e (c :: s) caps) = None).
    { specialize (Hk 0%nat). rewrite Nat.add_0_r in Hk. apply Hk; [simpl; lia|done]. }
    destruct (p c) eqn:Hc; [|done].
    rewrite IH; [done|].
    intros n Hn Hp. specialize (Hk (S n)).
    rewrite Nat.add_succ_r in Hk. simpl in Hk. apply Hk; [lia|].
    by rewrite Hc.
Qed.

(** Greedy choice: the repetition stops at the last place where the
    continuation succeeds. *)
Lemma rstar_pick p e s caps k n0 z :
  (n0 <= length s)%nat ->
  forallb p (take n0 s) = true ->
  k (MState (e + n0) (drop n0 s) caps) = Some z ->
  (forall n, (n0 < n <= length s)%nat -> forallb p (take n s) = true ->
             k (MState (e + n) (drop n s) caps) = None) ->
  rstar p e s caps k = Some z.
Proof.
  revert e n0. induction s as [|c s IH]; intros e n0 Hlen Hp Hz Hlater.
  - simpl in *. assert (n0 = 0%nat) as -> by lia.
    by rewrite Nat.add_0_r in Hz.
  - simpl. destruct n0 as [|n0].
    + rewrite Nat.add_0_r, drop_0 in Hz.
      destruct (p c) eqn:Hc; [|done].
      rewrite rstar_none; [done|].
      intros n Hn Hpn. specialize (Hlater (S n)).
      rewrite Nat.add_succ_r in Hlater. simpl in Hlater.
      apply Hlater; [lia|]. by rewrite Hc.
    + simpl in Hp. apply andb_prop in Hp as [Hc Hp]. rewrite Hc.
      rewrite (IH (S e) n0 ltac:(simpl in Hlen; lia) Hp).
      * done.
      * by rewrite Nat.add_succ_r in Hz.
      * intros n Hn Hpn. specialize (Hlater (S n)).
        rewrite Nat.add_succ_r in Hlater. simpl in Hlater.
        apply Hlater; [simpl in Hlen; lia|]. by rewrite Hc.
Qed.

Lemma forallb_take_stops p d s n :
  stops p s = true -> (n <= length (d ++ s))%nat ->
  forallb p (take n (d ++ s)) = true ->
  (n <= length d)%nat.
Proof.
  intros Hs Hlen Hp. destruct (decide (n <= length d)%nat) as [|Hn]; [done|].
  exfalso. assert (Hlt : (length d < n)%nat) by lia. clear Hn.
  destruct s as [|c s].
  - rewrite app_nil_r in Hlen. lia.
  - simpl in Hs. apply negb_true_iff in Hs. clear Hlen.
    revert n Hp Hlt. induction d as [|x d IH]; intros n Hp Hlt.
    + destruct n; [simpl in Hlt; lia|]. simpl in Hp. by rewrite Hs in Hp.
    + destruct n; [simpl in Hlt; lia|]. simpl in *.
      apply andb_prop in Hp as [_ Hp]. apply (IH n Hp). lia.
Qed.

(** A maximal run is taken whole when what follows then matches. *)
Lemma rstar_run p e d s caps k z :
  forallb p d = true -> stops p s = true ->
  k (MState (e + length d) s caps) = Some z ->
  rstar p e (d ++ s) caps k = Some z.
Proof.
  intros Hd Hs Hz.
  apply (rstar_pick p e (d ++ s) caps k (length d)).
  - rewrite length_app. lia.
  - by rewrite take_app_length.
  - by rewrite drop_app_length.
  - intros n [Hn Hle] Hp. apply (forallb_take_stops p d s n Hs Hle) in Hp. lia.
Qed.

Lemma rmatch_group_plus i p e d s caps k z :
  d <> [] -> forallb p d = true -> stops p s = true ->
  k (MState (e + length d) s (<[i := Some d]> caps)) = Some z ->
  rmatch (RGroup i (RPlus p)) (MState e (d ++ s) caps) k = Some z.
Proof.
  intros Hne Hd Hs Hz. destruct d as [|c d]; [done|].
  simpl in Hd. apply andb_prop in Hd as [Hc Hd].
  simpl. rewrite Hc.
  apply rstar_run; [done..|]. unfold set_capture. simpl.
  replace (S (e + length d) - e)%nat with (S (length d)) by lia.
  simpl. rewrite take_app_length.
  simpl in Hz. by rewrite Nat.add_succ_r in Hz.
Qed.

Lemma rmatch_group_star i p e d s caps z :
  forallb p d = true -> stops p s = true ->
  z = MState (e + length d) s (<[i := Some d]> caps) ->
  rmatch (RGroup i (RStar p)) (MState e (d ++ s) caps) Some = Some z.
Proof.
  intros Hd Hs ->. simpl.
  apply rstar_run; [done..|]. unfold set_capture. simpl.
  replace (e + length d - e)%nat with (length d) by lia.
  by rewrite take_app_length.
Qed.
End MatcherFacts.

(** ** The severity of a diagnostic *)

(** C6. [getSeverity] is defined on every string: it answers [Error]
    exactly on [error], [Warning] exactly on [warning] and
    [Information] on every other string, [info] among them; it never
    answers [Hint]. *)
Theorem getSeverity_total (s : jsstring) :
  (getSeverity s = Error <-> s = str "error") /\
  (getSeverity s = Warning <-> s = str "warning") /\
  (getSeverity s = Information <-> s <> str "error" /\ s <> str "warning") /\
  getSeverity s <> Hint /\
  getSeverity (str "info") = Information.
Proof.
  unfold getSeverity, streq.
  assert (Hne : str "warning" <> str "error") by (vm_compute; congruence).
  assert (Hinfo : bool_decide (str "info" = str "error") = false
                  /\ bool_decide (str "info" = str "warning") = false)
    by (split; apply bool_decide_eq_false_2; vm_compute; congruence).
  destruct Hinfo as [-> ->].
  destruct (decide (s = str "error")) as [Herr|Herr].
  { rewrite (bool_decide_eq_true_2 _ Herr). subst s.
    repeat split; try congruence; try tauto. }
  rewrite (bool_decide_eq_false_2 _ Herr).
  destruct (decide (s = str "warning")) as [Hwarn|Hwarn].
  { rewrite (bool_decide_eq_true_2 _ Hwarn).
    repeat split; try congruence; try tauto. }
  rewrite (bool_decide_eq_false_2 _ Hwarn).
  repeat split; try congruence; try tauto.
Qed.

(** ** The shell resolver *)

(** C8. A non-empty configured shell is returned as it is, with no
    probe of the file system.  Without one, on [win32] the function
    probes [wsl.exe], then the 64-bit and then the 32-bit Git bash, stops
    at the first that exists and returns the shell that goes with it
    ([bash.exe] of System32 for [wsl.exe]); when none exists it shows
    the error message and returns [undefined].  On any other platform it
    returns [/bin/bash] and probes nothing. *)
Theorem resolveBashShell_cases (config : option jsstring)
    (platform : jsstring) (fs : jsstring -> bool) :
  match config with
  | Some (c :: shell) =>
      resolveBashShell config platform fs = ([], Some (c :: shell))
  | _ =>
      if decide (platform = str "win32") then
        if fs wsl then
          resolveBashShell config platform fs = ([Probe wsl], Some wsl_bash)
        else if fs git_bash_x64 then
          resolveBashShell config platform fs
          = ([Probe wsl; Probe git_bash_x64], Some git_bash_x64)
        else if fs git_bash_x32 then
          resolveBashShell config platform fs
          = ([Probe wsl; Probe git_bash_x64; Probe git_bash_x32],
             Some git_bash_x32)
        else
          resolveBashShell config platform fs
          = ([Probe wsl; Probe git_bash_x64; Probe git_bash_x32;
              ShowErrorMessage no_shell_error], None)
      else resolveBashShell config platform fs = ([], Some linux_osx_bash)
  end.
Proof.
  assert (Hunset : forall cfg, cfg = None \/ cfg = Some [] ->
    if decide (platform = str "win32") then
      if fs wsl then
        resolveBashShell cfg platform fs = ([Probe wsl], Some wsl_bash)
      else if fs git_bash_x64 then
        resolveBashShell cfg platform fs
        = ([Probe wsl; Probe git_bash_x64], Some git_bash_x64)
      else if fs git_bash_x32 then
        resolveBashShell cfg platform fs
        = ([Probe wsl; Probe git_bash_x64; Probe git_bash_x32],
           Some git_bash_x32)
      else
        resolveBashShell cfg platform fs
        = ([Probe wsl; Probe git_bash_x64; Probe git_bash_x32;
            ShowErrorMessage no_shell_error], None)
    else resolveBashShell cfg platform fs = ([], Some linux_osx_bash)).
  { intros cfg Hcfg.
    assert (Hres : resolveBashShell cfg platform fs
                   = resolveBashShell None platform fs)
      by (destruct Hcfg as [->| ->]; reflexivity).
    rewrite Hres. unfold resolveBashShell, streq.
    destruct (decide (platform = str "win32")) as [Hp|Hp].
    - rewrite (bool_decide_eq_true_2 _ Hp).
      unfold io_bind, exists_, showErrorMessage, io_ret.
      destruct (fs wsl); [done|].
      destruct (fs git_bash_x64); [done|].
      by destruct (fs git_bash_x32).
    - by rewrite (bool_decide_eq_false_2 _ Hp). }
  destruct config as [[|c shell]|].
  - apply Hunset. by right.
  - reflexivity.
  - apply Hunset. by left.
Qed.

(** ** Path conversion *)

Section ReplaceFacts.

Lemma search_Some r i s j m :
  search r i s = Some (j, m) ->
  exists n y, j = (i + n)%nat /\ (n <= length s)%nat /\
    match_at r j (drop n s) = Some y /\ m = match_array j (drop n s) y.
Proof.
  revert i. induction s as [|c s IH]; intros i; simpl.
  - destruct (match_at r i []) as [y|] eqn:Hy; [|done].
    intros [= <- <-]. exists 0%nat, y. by rewrite Nat.add_0_r.
  - destruct (match_at r i (c :: s)) as [y|] eqn:Hy.
    + intros [= <- <-]. exists 0%nat, y. rewrite Nat.add_0_r. simpl.
      repeat split; [lia|done].
    + intros (n & y & -> & Hn & Hm & ->)%IH. exists (S n), y.
      rewrite Nat.add_succ_r. simpl. repeat split; [lia|done].
Qed.

Lemma search_here r i s y :
  match_at r i s = Some y -> search r i s = Some (i, match_array i s y).
Proof. intros Hy. destruct s; simpl; by rewrite Hy. Qed.

(** [/([a-zA-Z]):/] matches a letter and the colon after it, and
    captures the letter. *)
Lemma match_at_drive i s y :
  match_at re_drive i s = Some y ->
  exists c s', s = c :: 58 :: s' /\ is_letter c = true /\
    match_array i s y = [Some [c; 58]; Some [c]].
Proof.
  unfold match_at, match_array, re_drive. norm_str. simpl.
  destruct s as [|c [|d s']]; simpl; try done.
  - by destruct (is_letter c).
  - destruct (is_letter c) eqn:Hc; [|done].
    destruct (58 =? d) eqn:Hd; [|done]. apply N.eqb_eq in Hd as <-.
    intros [= <-]. exists c, s'. unfold set_capture. simpl.
    replace (S (S i) - i)%nat with 2%nat by lia.
    replace (S i - i)%nat with 1%nat by lia. done.
Qed.

(** Rewriting the drive to itself changes nothing. *)
Lemma replace_drive_same path :
  replace path re_drive [TCap 1; TLit (str ":")] = path.
Proof.
  unfold replace.
  destruct (search re_drive 0 path) as [[j m]|] eqn:Hs; [|done].
  apply search_Some in Hs as (n & y & -> & Hn & Hy & ->).
  apply match_at_drive in Hy as (c & s' & Hd & _ & ->).
  simpl. rewrite <- (take_drop n path) at 3. f_equal.
  rewrite <- drop_drop, Hd. done.
Qed.

(** A leading drive becomes [/mnt/] and the drive letter. *)
Lemma replace_drive_wsl c s :
  is_letter c = true ->
  replace (c :: 58 :: s) re_drive [TLit (str "/mnt/"); TCap 1]
  = str "/mnt/" ++ c :: s.
Proof.
  intros Hc. unfold replace.
  rewrite (search_here _ _ _ (MState 2 s [None; Some [c]])).
  - done.
  - unfold match_at, re_drive. norm_str. simpl. by rewrite Hc.
Qed.

Lemma replace_from_char x text i s :
  replace_from (rlit [x]) [TLit text] i 0 s = s ≫= subst_char x text.
Proof.
  revert i. induction s as [|c s IH]; intros i; [done|].
  change ((c :: s) ≫= subst_char x text)
    with (subst_char x text c ++ (s ≫= subst_char x text)).
  rewrite <- (IH (S i)). unfold subst_char.
  simpl. unfold match_at. simpl.
  destruct (x =? c); simpl; [|done].
  unfold match_array, group, expand. simpl.
  replace (S i - i)%nat with 1%nat by lia. simpl. by rewrite app_nil_r.
Qed.

Lemma replace_g_char x text s :
  replace_g s (rlit [x]) [TLit text] = s ≫= subst_char x text.
Proof. apply replace_from_char. Qed.

(** Without a match anywhere, a global replacement changes nothing. *)
Lemma replace_from_nomatch r tmpl i s :
  search r i s = None -> replace_from r tmpl i 0 s = s.
Proof.
  revert i. induction s as [|c s IH]; intros i; simpl.
  - by destruct (match_at r i []).
  - destruct (match_at r i (c :: s)); [done|].
    intros Hs. by rewrite IH.
Qed.

(** After a match the scan resumes behind it. *)
Lemma replace_from_skip r tmpl i sk s :
  (sk <= length s)%nat ->
  replace_from r tmpl i sk s = replace_from r tmpl (i + sk) 0 (drop sk s).
Proof.
  revert i s. induction sk as [|sk IH]; intros i s Hlen.
  - by rewrite Nat.add_0_r, drop_0.
  - destruct s as [|c s]; [simpl in Hlen; lia|].
    cbn [replace_from drop]. rewrite IH by (simpl in Hlen; lia).
    by rewrite Nat.add_succ_r.
Qed.

Lemma replace_from_match r tmpl i s y n :
  match_at r i s = Some y ->
  length (group (match_array i s y) 0) = S n ->
  (S n <= length s)%nat ->
  replace_from r tmpl i 0 s
  = expand tmpl (match_array i s y)
    ++ replace_from r tmpl (i + S n) 0 (drop (S n) s).
Proof.
  intros Hy Hn Hlen. destruct s as [|c s]; [simpl in Hlen; lia|].
  cbn [replace_from]. rewrite Hy. cbv zeta. rewrite Hn.
  rewrite replace_from_skip by (simpl in Hlen; lia).
  by rewrite Nat.add_succ_r.
Qed.

(** Whether [/\/mnt\/([a-z])\//] matches does not depend on the index. *)
Lemma match_at_mnt_index i j s :
  match_at re_mnt i s = None -> match_at re_mnt j s = None.
Proof.
  unfold match_at, re_mnt, lit. simpl ngroups. simpl replicate.
  cbn [rmatch]. rewrite !rmatch_rlit.
  destruct (startsWith s (str "/mnt/")); [|done].
  cbn [rmatch rest endIndex captures].
  destruct (drop (length (str "/mnt/")) s) as [|c s']; [done|].
  destruct (is_lower c); [|done].
  unfold set_capture. cbn [rest endIndex captures]. rewrite !rmatch_rlit.
  by destruct (startsWith s' (str "/")).
Qed.

Lemma search_mnt_index i j s :
  search re_mnt i s = None -> search re_mnt j s = None.
Proof.
  revert i j. induction s as [|c s IH]; intros i j; cbn [search].
  - destruct (match_at re_mnt i []) eqn:Hi; [done|].
    by rewrite (match_at_mnt_index i j _ Hi).
  - destruct (match_at re_mnt i (c :: s)) eqn:Hi; [done|].
    rewrite (match_at_mnt_index i j _ Hi). apply IH.
Qed.

End ReplaceFacts.

Section ConversionFacts.

Lemma isWsl_true : isWsl wsl_bash = true.
Proof. by apply bool_decide_eq_true_2. Qed.

Lemma slashes_then_spaces s :
  (s ≫= subst_char 92 [47]) ≫= subst_char 32 [92; 32] = s ≫= to_shell_char.
Proof.
  induction s as [|c s IH]; [done|].
  change ((c :: s) ≫= to_shell_char) with (to_shell_char c ++ (s ≫= to_shell_char)).
  change ((c :: s) ≫= subst_char 92 [47])
    with (subst_char 92 [47] c ++ (s ≫= subst_char 92 [47])).
  rewrite bind_app, IH. f_equal.
  unfold subst_char, to_shell_char.
  destruct (92 =? c); [done|]. simpl. unfold subst_char.
  by rewrite app_nil_r.
Qed.

Lemma pathToBashPath_other path shell :
  isWsl shell = false -> pathToBashPath path shell = path ≫= to_shell_char.
Proof.
  intros Hw. unfold pathToBashPath. rewrite Hw, replace_drive_same.
  unfold re_backslash, re_space. norm_str.
  by rewrite !replace_g_char, slashes_then_spaces.
Qed.

Lemma bind_slashes s : s ≫= subst_char 92 [47] = to_slash <$> s.
Proof.
  induction s as [|c s IH]; [done|].
  change ((c :: s) ≫= subst_char 92 [47])
    with (subst_char 92 [47] c ++ (s ≫= subst_char 92 [47])).
  rewrite IH. unfold subst_char, to_slash. simpl.
  by destruct (92 =? c).
Qed.

Lemma bind_spaces s :
  includes s (str " ") = false -> s ≫= subst_char 32 [92; 32] = s.
Proof.
  norm_str. induction s as [|c s IH]; [done|].
  intros H. simpl in H. apply orb_false_elim in H as [Hc Hs].
  rewrite andb_true_r in Hc.
  change ((c :: s) ≫= subst_char 32 [92; 32])
    with (subst_char 32 [92; 32] c ++ (s ≫= subst_char 32 [92; 32])).
  rewrite (IH Hs). unfold subst_char. by rewrite Hc.
Qed.

Lemma includes_to_slash s :
  includes s (str " ") = false -> includes (to_slash <$> s) (str " ") = false.
Proof.
  norm_str. induction s as [|c s IH]; [done|].
  intros H. simpl in H. apply orb_false_elim in H as [Hc Hs].
  change (to_slash <$> c :: s) with (to_slash c :: (to_slash <$> s)).
  cbn [includes startsWith]. rewrite (IH Hs), orb_false_r.
  rewrite andb_true_r in Hc |- *. unfold to_slash.
  by destruct (92 =? c).
Qed.

Lemma lower_not c x :
  is_lower c = true -> (x <? 97) = true -> (x =? c) = false.
Proof.
  unfold is_lower, in_range.
  intros [Hlo _]%andb_prop Hx.
  apply N.leb_le in Hlo. apply N.ltb_lt in Hx. apply N.eqb_neq. lia.
Qed.

Lemma letter_not c x :
  is_letter c = true -> (x <? 65) = true -> (x =? c) = false.
Proof.
  unfold is_letter, is_lower, is_upper, in_range.
  intros Hc Hx. apply N.ltb_lt in Hx. apply N.eqb_neq.
  apply orb_prop in Hc as [[Hlo _]%andb_prop|[Hlo _]%andb_prop];
    apply N.leb_le in Hlo; lia.
Qed.

Lemma lower_letter c : is_lower c = true -> is_letter c = true.
Proof. unfold is_letter. by intros ->. Qed.

(** The forward conversion under WSL, for a path that starts with a
    lowercase drive. *)
Lemma pathToBashPath_wsl d sep rest :
  is_lower d = true -> to_slash sep = 47 ->
  includes rest (str " ") = false ->
  pathToBashPath (d :: 58 :: sep :: rest) wsl_bash
  = str "/mnt/" ++ d :: 47 :: (to_slash <$> rest).
Proof.
  intros Hd Hsep Hsp. unfold pathToBashPath.
  assert (Hdd : to_slash d = d)
    by (unfold to_slash; by rewrite (lower_not d 92 Hd)).
  rewrite isWsl_true, (replace_drive_wsl _ _ (lower_letter _ Hd)).
  unfold re_backslash, re_space. norm_str.
  rewrite !replace_g_char, slashes_then_spaces.
  rewrite <- slashes_then_spaces, bind_slashes, bind_spaces.
  - by rewrite fmap_app, !fmap_cons, Hsep, Hdd.
  - rewrite fmap_app, !fmap_cons, Hsep, Hdd.
    apply includes_to_slash in Hsp. revert Hsp. norm_str. intros Hsp.
    simpl. rewrite (lower_not d 32 Hd) by done. by rewrite Hsp.
Qed.

Lemma match_at_mnt_here i d s :
  is_lower d = true ->
  match_at re_mnt i (str "/mnt/" ++ d :: 47 :: s)
  = Some (MState (i + 7) s [None; Some [d]]).
Proof.
  intros Hd. unfold match_at, re_mnt. norm_str.
  cbn [rmatch]. rewrite rmatch_rlit_app.
  cbn [rmatch rest endIndex captures]. rewrite Hd.
  unfold set_capture. cbn [rest endIndex captures].
  rewrite (rmatch_rlit_app [47] _ s). simpl.
  replace (S (i + 5) - (i + 5))%nat with 1%nat by lia.
  simpl. do 2 f_equal. lia.
Qed.

End ConversionFacts.

(** C9. Under a shell other than the WSL bash, [pathToBashPath] only
    turns each backslash into a slash and puts a backslash before each
    space; a leading drive letter with its colon is therefore kept as it
    is; and [bashPathsToWinPaths] returns its input. *)
Theorem pathToBashPath_non_wsl (path text shell : jsstring) :
  shell <> wsl_bash ->
  pathToBashPath path shell = path ≫= to_shell_char /\
  (forall d rest, is_letter d = true -> path = d :: 58 :: rest ->
     pathToBashPath path shell = d :: 58 :: (rest ≫= to_shell_char)) /\
  bashPathsToWinPaths text shell = text.
Proof.
  intros Hs.
  assert (Hw : isWsl shell = false) by by apply bool_decide_eq_false_2.
  split; [by apply pathToBashPath_other|]. split.
  - intros d rest Hd ->. rewrite (pathToBashPath_other _ _ Hw).
    change ((d :: 58 :: rest) ≫= to_shell_char)
      with (to_shell_char d ++ [58] ++ (rest ≫= to_shell_char)).
    unfold to_shell_char at 1.
    assert (H32 : (32 =? d) = false) by by apply letter_not.
    assert (H92 : (92 =? d) = false).
    { unfold is_letter, is_lower, is_upper, in_range in Hd.
      apply N.eqb_neq.
      apply orb_prop in Hd as [[Hlo Hhi]%andb_prop|[Hlo Hhi]%andb_prop];
        apply N.leb_le in Hlo, Hhi; lia. }
    by rewrite H92, H32.
  - unfold bashPathsToWinPaths. by rewrite Hw.
Qed.

Lemma pathToBashPath_non_wsl_witness :
  git_bash_x64 <> wsl_bash /\
  pathToBashPath (str "C:\Program Files\Git") git_bash_x64
  = str "C:/Program\ Files/Git" /\
  bashPathsToWinPaths (str "/mnt/c/x") git_bash_x64 = str "/mnt/c/x".
Proof.
  assert (Hs : git_bash_x64 <> wsl_bash) by (vm_compute; congruence).
  split; [exact Hs|].
  destruct (pathToBashPath_non_wsl (str "C:\Program Files\Git")
              (str "/mnt/c/x") git_bash_x64 Hs) as (Hf & _ & Hb).
  split; [rewrite Hf; reflexivity | exact Hb].
Defined.

(** C3, as the code has it. For a path made of a lowercase drive letter,
    a colon, a separator and a remainder without spaces in which no
    [/mnt/<lowercase letter>/] shows up once its backslashes are
    slashes, converting under WSL and back gives the path with every
    backslash turned into a slash: the drive comes back, the
    separators do not. *)
Theorem wsl_round_trip_slashes (d sep : char) (rest : jsstring) :
  is_lower d = true ->
  to_slash sep = 47 ->
  includes rest (str " ") = false ->
  test re_mnt (to_slash <$> rest) = false ->
  wsl_round_trip (d :: 58 :: sep :: rest) = to_slash <$> (d :: 58 :: sep :: rest).
Proof.
  intros Hd Hsep Hsp Hmnt. unfold wsl_round_trip.
  rewrite (pathToBashPath_wsl _ _ _ Hd Hsep Hsp).
  unfold bashPathsToWinPaths, replace_g. rewrite isWsl_true.
  assert (Hnone : search re_mnt 7 (to_slash <$> rest) = None).
  { apply (search_mnt_index 0). unfold test in Hmnt.
    apply bool_decide_eq_false_1 in Hmnt.
    destruct (search re_mnt 0 (to_slash <$> rest)); [|done].
    exfalso. by apply Hmnt. }
  rewrite (replace_from_match _ _ _ _ _ 6 (match_at_mnt_here 0 d _ Hd)).
  - norm_str. unfold match_array, expand, group. simpl.
    rewrite (replace_from_nomatch _ _ _ _ Hnone), Hsep.
    assert (Hdd : to_slash d = d)
      by (unfold to_slash; by rewrite (lower_not d 92 Hd)).
    by rewrite Hdd.
  - by norm_str.
  - norm_str. simpl. lia.
Qed.

Lemma wsl_round_trip_slashes_witness :
  wsl_round_trip (str "c:\Users\alan\project") = str "c:/Users/alan/project".
Proof.
  apply (wsl_round_trip_slashes 99 92 (str "Users\alan\project"));
    vm_compute; reflexivity.
Defined.

(** C3 as stated fails: the separators of [c:\x] come back as slashes,
    and an uppercase drive is not rewritten back at all. *)
Lemma wsl_round_trip_counterexample :
  wsl_round_trip (str "c:\x") = str "c:/x" /\
  str "c:/x" <> str "c:\x" /\
  wsl_round_trip (str "C:\Users") = str "/mnt/C/Users" /\
  str "/mnt/C/Users" <> str "C:\Users".
Proof. vm_compute. repeat split; congruence. Qed.

(** ** The output parser, read as a list of entries *)

Section ParserFacts.

Lemma report_entry st f r msg sev :
  report st f r msg sev =
  match entry f r msg sev with
  | Some e => push st e.1 e.2
  | None => throw st
  end.
Proof.
  unfold report, entry.
  by destruct (r ≫= (fun r0 => newDiagnostic r0 msg sev)).
Qed.

Lemma scan_line_classify st ln :
  scan_line st ln =
  match classify ln with
  | Some (Some e) => push st e.1 e.2
  | Some None => throw st
  | None =>
      match current_diagnostic st with
      | Some a =>
          if startsWith ln [tab]
          then mkParser (alter (append_message (newline :: ln)) a (heap st))
                        (diagnostics st) (current_diagnostic st) (thrown st)
          else st
      | None => st
      end
  end.
Proof.
  unfold scan_line, classify.
  destruct (str_match ln re_range); [by rewrite report_entry|].
  destruct (str_match ln re_locat); [by rewrite report_entry|].
  destruct (str_match ln re_link); [by rewrite report_entry|].
  destruct (str_match ln re_other); [by rewrite report_entry|done].
Qed.

Lemma classify_is_diagnostic_line ln :
  is_diagnostic_line ln = false <-> classify ln = None.
Proof.
  unfold is_diagnostic_line, classify.
  destruct (str_match ln re_range); [by split|].
  destruct (str_match ln re_locat); [by split|].
  destruct (str_match ln re_link); [by split|].
  destruct (str_match ln re_other); [by split|].
  split; [done|]. intros _.
  rewrite !orb_false_iff. repeat split; apply bool_decide_eq_false_2;
    by intros [? ?].
Qed.


Lemma imap_alter_fst (g : Diagnostic -> Diagnostic) a (l : list (Uri * Diagnostic)) :
  imap (fun i e => (e.1, [i])) (alter (fun e => (e.1, g e.2)) a l)
  = imap (fun (i : nat) (e : Uri * Diagnostic) => (e.1, [i])) l.
Proof.
  transitivity (imap (fun (i : nat) (f : Uri) => (f, [i]))
                  (alter (fun e : Uri * Diagnostic => (e.1, g e.2)) a l).*1).
  { by rewrite imap_fmap. }
  rewrite (list_fmap_alter fst _ id).
  - rewrite list_alter_id by done. by rewrite imap_fmap.
  - by apply Forall_forall.
Qed.

Lemma holds_init : holds parser_init [].
Proof. done. Qed.

Lemma holds_scan_line st l ln :
  holds st l -> throws ln = false ->
  holds (scan_line st ln) (record_line l ln).
Proof.
  intros (Hthrown & Hheap & Hdiag & Hcur) Hquiet.
  rewrite scan_line_classify. unfold record_line.
  unfold throws in Hquiet.
  destruct (classify ln) as [[[f d]|]|]; [|done|].
  - unfold push, holds. simpl. rewrite Hheap, Hdiag.
    rewrite fmap_app, imap_app, !length_fmap, length_app. simpl.
    rewrite Nat.add_0_r, Nat.add_sub.
    repeat split; [done|]. by destruct l.
  - rewrite Hcur. destruct l as [|e l]; [by destruct (startsWith ln [tab])|].
    destruct (startsWith ln [tab]); [|done].
    unfold holds. cbn [heap diagnostics current_diagnostic thrown].
    rewrite Hheap, Hdiag, length_alter. unfold note.
    rewrite imap_alter_fst.
    rewrite (list_fmap_alter snd _ (append_message (newline :: ln)))
      by by apply Forall_forall.
    repeat split; [done|].
    by destruct (alter _ _ (e :: l)) eqn:Ha;
      [apply (f_equal length) in Ha; rewrite length_alter in Ha|].
Qed.

Lemma scan_lines_snoc lines ln :
  scan_lines (lines ++ [ln])
  = if thrown (scan_lines lines) then scan_lines lines
    else scan_line (scan_lines lines) ln.
Proof. unfold scan_lines. by rewrite foldl_app. Qed.

Lemma record_lines_snoc lines ln :
  record_lines (lines ++ [ln]) = record_line (record_lines lines) ln.
Proof. unfold record_lines. by rewrite foldl_app. Qed.

(** Without a line that throws, the parser holds the list reading. *)
Lemma holds_scan_lines lines :
  existsb throws lines = false ->
  holds (scan_lines lines) (record_lines lines).
Proof.
  induction lines as [|ln lines IH] using rev_ind; [intros; apply holds_init|].
  rewrite existsb_app. simpl. rewrite orb_false_r.
  intros [Hlines Hln]%orb_false_elim.
  rewrite scan_lines_snoc, record_lines_snoc.
  pose proof (IH Hlines) as Hholds. rewrite (proj1 Hholds).
  by apply holds_scan_line.
Qed.

(** With one, the scan ends thrown. *)
Lemma thrown_scan_lines lines :
  existsb throws lines = true -> thrown (scan_lines lines) = true.
Proof.
  induction lines as [|ln lines IH] using rev_ind; [done|].
  rewrite existsb_app, scan_lines_snoc. simpl. rewrite orb_false_r.
  destruct (thrown (scan_lines lines)) eqn:Hth; [done|].
  destruct (existsb throws lines) eqn:Hlines; [by specialize (IH eq_refl)|].
  simpl. unfold throws. rewrite scan_line_classify.
  by destruct (classify ln) as [[e|]|].
Qed.

Lemma read_diagnostics_holds st l :
  holds st l -> read_diagnostics st = installed l.
Proof.
  intros (Hthrown & Hheap & Hdiag & _). unfold read_diagnostics, installed.
  rewrite Hthrown, Hdiag, fmap_imap.
  rewrite <- (imap_const (fun e : Uri * Diagnostic => (e.1, [e.2]))).
  apply imap_ext. intros i [f d] Hi. simpl.
  by rewrite Hheap, list_lookup_fmap, Hi.
Qed.

(** The collection holds nothing when a line throws, and the entries of
    the list reading otherwise. *)
Lemma read_diagnostics_scan lines :
  read_diagnostics (scan_lines lines)
  = if existsb throws lines then [] else installed (record_lines lines).
Proof.
  destruct (existsb throws lines) eqn:Hlines.
  - unfold read_diagnostics. by rewrite thrown_scan_lines.
  - by apply read_diagnostics_holds, holds_scan_lines.
Qed.



End ParserFacts.

(** ** The shape of a diagnostic line *)

Section PatternFacts.
Implicit Types (k : continuation) (caps : list (option jsstring)).

(** A pattern that starts with [^] matches at index 0 or not at all. *)
Lemma search_anchored r i s :
  i <> 0%nat -> search (RStart >>> r) i s = None.
Proof.
  revert i. induction s as [|c s IH]; intros i Hi; cbn [search];
    unfold match_at; cbn [rmatch endIndex];
    destruct i as [|i]; try done; cbn [Nat.eqb].
  by apply IH.
Qed.

Lemma str_match_anchored r ln :
  str_match ln (RStart >>> r)
  = match_array 0 ln <$> match_at (RStart >>> r) 0 ln.
Proof.
  unfold str_match. destruct ln as [|c ln]; cbn [search];
    destruct (match_at (RStart >>> r) 0 _); try done.
  by rewrite search_anchored.
Qed.

Lemma rmatch_path_head hd e s caps k :
  is_path_head hd = true ->
  rmatch path_head (MState e (hd ++ s) caps) k
  = k (MState (e + length hd) s caps).
Proof.
  unfold path_head. norm_str.
  destruct hd as [|c [|d [|? ?]]]; try done; simpl.
  - intros Hc. apply N.eqb_eq in Hc as <-. rewrite N.eqb_refl.
    change (is_letter 47) with false. rewrite Nat.add_1_r.
    by destruct (k _).
  - intros [Hc Hd]%andb_prop. rewrite Hd, Hc.
    rewrite (letter_not c 47 Hc) by done.
    by replace (e + 2)%nat with (S (S e)) by lia.
Qed.

(** No line that starts with something else matches a pattern. *)
Lemma match_at_not_path r c ln :
  (47 =? c) = false -> is_letter c = false ->
  match_at (RStart >>> re_file ".alan" >>> r) 0 (c :: ln) = None /\
  match_at (RStart >>> re_file ".link" >>> r) 0 (c :: ln) = None.
Proof.
  intros H47 Hc. unfold match_at, re_file, path_head. norm_str. simpl.
  by rewrite H47, Hc.
Qed.

Lemma match_at_empty r :
  match_at (RStart >>> re_file ".alan" >>> r) 0 [] = None /\
  match_at (RStart >>> re_file ".link" >>> r) 0 [] = None.
Proof. by unfold match_at, re_file, path_head. Qed.

Lemma classify_not_path ln :
  match ln with
  | [] => true
  | c :: _ => negb (47 =? c) && negb (is_letter c)
  end = true ->
  classify ln = None.
Proof.
  intros Hln. unfold classify, re_range, re_locat, re_link, re_other.
  rewrite !str_match_anchored.
  destruct ln as [|c ln].
  - rewrite (proj1 (match_at_empty _)). cbn [fmap option_fmap option_map].
    rewrite (proj1 (match_at_empty _)). cbn [fmap option_fmap option_map].
    rewrite (proj2 (match_at_empty _)). cbn [fmap option_fmap option_map].
    by rewrite (proj1 (match_at_empty _)).
  - apply andb_prop in Hln as [H47%negb_true_iff Hc%negb_true_iff].
    pose proof (fun r => match_at_not_path r c ln H47 Hc) as Hno.
    rewrite (proj1 (Hno _)). cbn [fmap option_fmap option_map].
    rewrite (proj1 (Hno _)). cbn [fmap option_fmap option_map].
    rewrite (proj2 (Hno _)). cbn [fmap option_fmap option_map].
    by rewrite (proj1 (Hno _)).
Qed.

Lemma classify_tab ln : startsWith ln [tab] = true -> classify ln = None.
Proof.
  intros Ht. apply classify_not_path.
  destruct ln as [|c ln]; [done|].
  simpl in Ht. rewrite andb_true_r in Ht. apply N.eqb_eq in Ht as <-.
  done.
Qed.

(** The file group.  The path is [hd ++ mid ++ .alan]; [.*] gives back
    characters until [.alan] and the separator follow, so the group
    ends at the last such place, which is where the path ends when
    [.alan] with the separator does not occur again behind it. *)
Lemma rmatch_file sep r hd mid s caps k z :
  is_path_head hd = true ->
  forallb is_dot mid = true ->
  includes (sep ++ s) (str ".alan" ++ sep) = false ->
  rmatch r (MState (length (hd ++ mid ++ str ".alan") + length sep) s
              (<[1%nat := Some (hd ++ mid ++ str ".alan")]> caps)) k = Some z ->
  rmatch (re_file ".alan" >>> rlit sep >>> r)
    (MState 0 (hd ++ mid ++ str ".alan" ++ sep ++ s) caps) k = Some z.
Proof.
  intros Hhd Hmid Hnot Hz. unfold re_file.
  fold path_head. cbn [rmatch]. rewrite rmatch_path_head by done.
  cbn [rmatch endIndex rest captures].
  apply (rstar_pick _ _ _ _ _ (length mid)).
  - rewrite length_app. lia.
  - by rewrite take_app_length.
  - rewrite drop_app_length. unfold lit. rewrite rmatch_rlit_app.
    unfold set_capture. cbn [endIndex rest captures].
    rewrite rmatch_rlit_app. rewrite <- Hz. f_equal. f_equal.
    + rewrite !length_app. lia.
    + do 2 f_equal. rewrite Nat.sub_0_r.
      replace (hd ++ mid ++ str ".alan" ++ sep ++ s)
        with ((hd ++ mid ++ str ".alan") ++ sep ++ s)
        by by rewrite <- !app_assoc.
      apply take_app_length'. rewrite !length_app. lia.
  - intros n [Hn _] _.
    assert (Hno : startsWith (drop n (mid ++ str ".alan" ++ sep ++ s))
                    (str ".alan" ++ sep) = false).
    { replace n with (length mid + (n - length mid))%nat by lia.
      rewrite drop_app_add.
      destruct (n - length mid)%nat as [|[|[|[|[|j]]]]] eqn:Hj;
        [lia|norm_str; reflexivity..|].
      replace (S (S (S (S (S j)))))
        with (length (str ".alan") + j)%nat by done.
      rewrite drop_app_add. by apply includes_drop. }
    rewrite startsWith_app in Hno.
    unfold lit. rewrite rmatch_rlit.
    destruct (startsWith _ (str ".alan")); [|done].
    unfold set_capture. cbn [endIndex rest captures].
    rewrite rmatch_rlit. rewrite andb_true_l in Hno. by rewrite Hno.
Qed.

Lemma rmatch_severity i e sev s caps k z :
  is_severity sev = true ->
  k (MState (e + length sev) s (<[i := Some sev]> caps)) = Some z ->
  rmatch (re_severity i) (MState e (sev ++ s) caps) k = Some z.
Proof.
  unfold is_severity, streq, re_severity.
  rewrite !orb_true_iff, !bool_decide_eq_true.
  intros [[->| ->]| ->] Hz; unfold lit; cbn [rmatch].
  - rewrite rmatch_rlit_app. unfold set_capture.
    cbn [endIndex rest captures].
    replace (e + length (str "error") - e)%nat
      with (length (str "error")) by lia.
    rewrite take_app_length. unfold jsstring, char in *. by rewrite Hz.
  - rewrite rmatch_rlit. change (startsWith _ _) with false. cbv iota.
    rewrite rmatch_rlit_app. unfold set_capture.
    cbn [endIndex rest captures].
    replace (e + length (str "warning") - e)%nat
      with (length (str "warning")) by lia.
    rewrite take_app_length. unfold jsstring, char in *. by rewrite Hz.
  - rewrite rmatch_rlit. change (startsWith _ _) with false. cbv iota.
    rewrite rmatch_rlit. change (startsWith _ _) with false. cbv iota.
    rewrite rmatch_rlit_app. unfold set_capture.
    cbn [endIndex rest captures].
    replace (e + length (str "info") - e)%nat
      with (length (str "info")) by lia.
    rewrite take_app_length. unfold jsstring, char in *. by rewrite Hz.
Qed.

Lemma parseInt_number d :
  is_number d = true -> (decimal d <= max_exact)%Z ->
  parseInt d = Int (decimal d).
Proof.
  unfold is_number, parseInt, decimal.
  destruct d as [|c d]; [done|]. intros [Hc _]%andb_prop Hle.
  rewrite Hc. apply Z.leb_le in Hle. by rewrite Hle.
Qed.

Lemma is_number_inv d :
  is_number d = true -> d <> [] /\ forallb is_digit d = true.
Proof. by destruct d. Qed.

End PatternFacts.

Section LineFacts.
Implicit Types (k : continuation) (caps : list (option jsstring)).

Lemma rmatch_start r s caps k :
  rmatch (RStart >>> r) (MState 0 s caps) k = rmatch r (MState 0 s caps) k.
Proof. done. Qed.

Lemma rmatch_lit_then l r e s caps k :
  rmatch (lit l >>> r) (MState e (str l ++ s) caps) k
  = rmatch r (MState (e + length (str l)) s caps) k.
Proof. unfold lit. cbn [rmatch]. by rewrite rmatch_rlit_app. Qed.

Lemma rmatch_number_then i r e d s caps k z :
  is_number d = true -> stops is_digit s = true ->
  rmatch r (MState (e + length d) s (<[i := Some d]> caps)) k = Some z ->
  rmatch (re_number i >>> r) (MState e (d ++ s) caps) k = Some z.
Proof.
  intros [Hne Hd]%is_number_inv Hs Hz. unfold re_number.
  change (rmatch (RGroup i (RPlus is_digit) >>> r) ?x k)
    with (rmatch (RGroup i (RPlus is_digit)) x (fun y => rmatch r y k)).
  by apply rmatch_group_plus.
Qed.

Lemma rmatch_severity_then i r e sev s caps k z :
  is_severity sev = true ->
  rmatch r (MState (e + length sev) s (<[i := Some sev]> caps)) k = Some z ->
  rmatch (re_severity i >>> r) (MState e (sev ++ s) caps) k = Some z.
Proof.
  intros Hsev Hz.
  change (rmatch (re_severity i >>> r) ?x k)
    with (rmatch (re_severity i) x (fun y => rmatch r y k)).
  by apply rmatch_severity.
Qed.


End LineFacts.

Section LocatFacts.

Lemma str_match_locat hd mid l1 c1 sev msg tl :
  is_path_head hd = true -> forallb is_dot mid = true ->
  is_number l1 = true -> is_number c1 = true ->
  is_severity sev = true ->
  forallb is_dot msg = true -> stops is_dot tl = true ->
  includes (locat_tail l1 c1 sev msg tl) (str ".alan at ") = false ->
  exists whole,
    str_match ((hd ++ mid ++ str ".alan") ++ locat_tail l1 c1 sev msg tl)
      re_locat
    = Some [whole; Some (hd ++ mid ++ str ".alan"); Some l1; Some c1;
            Some sev; Some msg].
Proof.
  intros Hhd Hmid Hl1 Hc1 Hsev Hmsg Htl Hnot.
  rewrite <- !app_assoc.
  unfold re_locat. rewrite str_match_anchored.
  match goal with |- context [match_at ?r 0%nat ?s] =>
    eassert (Hm : match_at r 0 s = Some _) end.
  { unfold match_at.
    change (replicate _ None) with (replicate 6 (@None jsstring)).
    rewrite rmatch_start.
    unfold locat_tail in *.
    apply (rmatch_file (str " at ")); [done..|].
    apply rmatch_number_then; [done..|]. rewrite rmatch_lit_then.
    apply rmatch_number_then; [done..|]. rewrite rmatch_lit_then.
    apply rmatch_severity_then; [done|]. rewrite rmatch_lit_then.
    apply rmatch_group_star; [done..|]. reflexivity. }
  rewrite Hm. by eexists.
Qed.


End LocatFacts.

(** ** Lines that report a diagnostic *)

Section ReportFacts.






End ReportFacts.







(** ** Continuation lines *)

Section ContinuationFacts.




Lemma scan_line_init ln :
  classify ln = None -> scan_line parser_init ln = parser_init.
Proof. intros Hc. rewrite scan_line_classify. by rewrite Hc. Qed.

Lemma scan_lines_no_diagnostic lines :
  Forall (fun ln => is_diagnostic_line ln = false) lines ->
  scan_lines lines = parser_init.
Proof.
  unfold scan_lines.
  induction lines as [|ln lines IH] using rev_ind; [done|].
  intros [Hl Hln]%Forall_app. rewrite foldl_app. simpl.
  rewrite (IH Hl). apply scan_line_init, classify_is_diagnostic_line.
  by inversion Hln.
Qed.

Lemma tab_is_not_diagnostic ln :
  startsWith ln [tab] = true -> is_diagnostic_line ln = false.
Proof. intros Ht. by apply classify_is_diagnostic_line, classify_tab. Qed.


End ContinuationFacts.



(** C10. A line that starts with a tab and has no line before it that
    matches one of the four patterns creates no diagnostic and leaves
    the parser as it was, without entries; so the scan of lines that all
    start with a tab installs nothing. *)
Theorem tab_line_without_diagnostic (pre : list jsstring) (ln : jsstring) :
  Forall (fun l => is_diagnostic_line l = false) pre ->
  startsWith ln [tab] = true ->
  scan_lines (pre ++ [ln]) = scan_lines pre /\
  read_diagnostics (scan_lines (pre ++ [ln])) = [] /\
  (forall lines, Forall (fun l => startsWith l [tab] = true) lines ->
     read_diagnostics (scan_lines lines) = []).
Proof.
  intros Hpre Htab.
  assert (Hall : scan_lines (pre ++ [ln]) = parser_init).
  { apply scan_lines_no_diagnostic, Forall_app. split; [done|].
    apply Forall_cons_2; [|done]. by apply tab_is_not_diagnostic. }
  rewrite Hall, (scan_lines_no_diagnostic pre Hpre).
  repeat split.
  intros lines Hlines. rewrite scan_lines_no_diagnostic; [done|].
  eapply Forall_impl; [exact Hlines|]. apply tab_is_not_diagnostic.
Qed.

Lemma tab_line_without_diagnostic_witness :
  parse_output (str "compiling" ++ [newline; tab] ++ str "see also bar.alan")
  = [].
Proof.
  assert (Hpre : Forall (fun l => is_diagnostic_line l = false) [str "compiling"])
    by (apply Forall_cons_2; [vm_compute; reflexivity|apply Forall_nil_2]).
  exact (proj1 (proj2 (tab_line_without_diagnostic [str "compiling"]
    (tab :: str "see also bar.alan") Hpre eq_refl))).
Defined.

(** ** The project-root locator *)

Section LocatorFacts.
Context `{PathModule}.
Variable fs : jsstring -> bool.

Lemma up_dirname n dir : up n (dirname dir) = up (S n) dir.
Proof. unfold up. by rewrite Nat.iter_succ_r. Qed.

(** One call of [find], case by case. *)
Lemma find_step root fuel curdir :
  find fs root (S fuel) curdir =
  if decide (curdir = root) then Some Rejected
  else if fs (join curdir (str "alan")) then Some (Resolved curdir)
  else find fs root fuel (dirname curdir).
Proof.
  simpl. unfold streq. destruct (decide (curdir = root)) as [Heq|Hne].
  - by rewrite (bool_decide_eq_true_2 _ Heq).
  - rewrite (bool_decide_eq_false_2 _ Hne).
    by destruct (fs (join curdir (str "alan"))).
Qed.

(** Below the root and without marker, the search climbs. *)
Lemma find_climb root n fuel curdir :
  (forall i, (i < n)%nat ->
     up i curdir <> root /\ fs (join (up i curdir) (str "alan")) = false) ->
  find fs root (n + fuel) curdir = find fs root fuel (up n curdir).
Proof.
  revert curdir. induction n as [|n IH]; intros curdir Hbelow; [done|].
  change (S n + fuel)%nat with (S (n + fuel)). rewrite find_step.
  destruct (Hbelow 0%nat ltac:(lia)) as [Hne Hno]. simpl in Hne, Hno.
  destruct (decide (curdir = root)); [done|]. rewrite Hno.
  rewrite IH, up_dirname; [done|].
  intros i Hi. rewrite up_dirname. apply Hbelow. lia.
Qed.

End LocatorFacts.

(** C4, as the code has it. Each call of the search first compares the
    current directory with the filesystem root of the starting path and
    rejects when they are equal, without looking for the marker there;
    otherwise it resolves to the current directory when it holds the
    marker [alan], and else goes on with the parent.  So when the [n]
    directories from the start upward are below the root and hold no
    marker: if the next one is the root the promise is rejected, and if
    it is not the root and holds the marker the promise resolves to it
    (for [n] = 3, the directory three levels up). *)
Theorem resolveAlanRoot_outcome `{PathModule} (fs : jsstring -> bool)
    (start : jsstring) (n : nat) :
  (forall i, (i < n)%nat ->
     up i start <> parse_root start /\
     fs (join (up i start) (str "alan")) = false) ->
  (up n start = parse_root start ->
     forall fuel, (n < fuel)%nat -> resolveAlanRoot fs fuel start = Some Rejected) /\
  (up n start <> parse_root start ->
     fs (join (up n start) (str "alan")) = true ->
     forall fuel, (n < fuel)%nat ->
       resolveAlanRoot fs fuel start = Some (Resolved (up n start))).
Proof.
  intros Hbelow. unfold resolveAlanRoot. split.
  - intros Hroot fuel Hfuel.
    replace fuel with (n + S (fuel - S n))%nat by lia.
    rewrite (find_climb fs _ n _ _ Hbelow), find_step.
    by destruct (decide (up n start = parse_root start)).
  - intros Hne Hmarker fuel Hfuel.
    replace fuel with (n + S (fuel - S n))%nat by lia.
    rewrite (find_climb fs _ n _ _ Hbelow), find_step.
    destruct (decide (up n start = parse_root start)); [done|].
    by rewrite Hmarker.
Qed.

(** The examples below are on POSIX paths. *)
Import Posix.

Lemma resolveAlanRoot_outcome_witness :
  resolveAlanRoot (only_file "/p/alan") 4 (str "/p/a/b/c")
    = Some (Resolved (str "/p")) /\
  resolveAlanRoot (fun _ => false) 4 (str "/a/b/c") = Some Rejected.
Proof.
  split.
  - assert (Hbelow : forall i, (i < 3)%nat ->
        up i (str "/p/a/b/c") <> parse_root (str "/p/a/b/c") /\
        only_file "/p/alan" (join (up i (str "/p/a/b/c")) (str "alan")) = false).
    { intros [|[|[|i]]] Hi; try lia; vm_compute; split; congruence. }
    apply (proj2 (resolveAlanRoot_outcome (only_file "/p/alan")
                    (str "/p/a/b/c") 3 Hbelow));
      [vm_compute; congruence|reflexivity|lia].
  - assert (Hbelow : forall i, (i < 3)%nat ->
        up i (str "/a/b/c") <> parse_root (str "/a/b/c") /\
        (fun _ : jsstring => false) (join (up i (str "/a/b/c")) (str "alan"))
        = false).
    { intros [|[|[|i]]] Hi; try lia; vm_compute; split; congruence. }
    apply (proj1 (resolveAlanRoot_outcome (fun _ => false)
                    (str "/a/b/c") 3 Hbelow)); [reflexivity|lia].
Defined.

(** C4 as stated fails when the directory that holds the marker is the
    filesystem root: three levels below it the promise is rejected,
    because the root is compared first and never looked into. *)
Lemma resolveAlanRoot_counterexample :
  up 3 (str "/a/b/c") = str "/" /\
  only_file "/alan" (join (str "/") (str "alan")) = true /\
  resolveAlanRoot (only_file "/alan") 4 (str "/a/b/c") = Some Rejected /\
  resolveAlanRoot (only_file "/alan") 100 (str "/a/b/c") = Some Rejected.
Proof. vm_compute. repeat split; congruence. Qed.

(** A relative starting directory has the empty root, which the walk
    up never meets: from [a/b] it goes to [a], then to [.], and stays
    there.  Without a marker the promise then stays pending, however
    many calls are made. *)
Remark resolveAlanRoot_relative_pending (fuel : nat) :
  resolveAlanRoot (fun _ => false) fuel (str "a/b") = None.
Proof.
  assert (Hdot : forall n, find (fun _ => false) [] n (str ".") = None).
  { induction n as [|n IH]; [done|]. rewrite find_step.
    destruct (decide (str "." = [])) as [Heq|_]; [by vm_compute in Heq|].
    exact IH. }
  unfold resolveAlanRoot. change (parse_root (str "a/b")) with (@nil char).
  destruct fuel as [|[|fuel]]; [done..|]. rewrite !find_step.
  destruct (decide (str "a/b" = [])) as [Heq|_]; [by vm_compute in Heq|].
  destruct (decide (dirname (str "a/b") = [])) as [Heq|_];
    [by vm_compute in Heq|].
  exact (Hdot fuel).
Qed.

(** ** The task list *)

(** Without a workspace folder, without an active editor or with the
    project root not found, the task list is empty. *)
Remark getTasksList_not_built `{PathModule} (fuel : nat) (h : host) :
  (rootPath h = None -> getTasksList fuel h = Some no_tasks) /\
  (activeFileName h = None -> getTasksList fuel h = Some no_tasks) /\
  (forall active_file_name,
     activeFileName h = Some active_file_name ->
     resolveAlanRoot (fileExists h) fuel (dirname active_file_name)
       = Some Rejected ->
     getTasksList fuel h = Some no_tasks).
Proof.
  unfold getTasksList. repeat split.
  - by intros ->.
  - intros ->. by destruct (rootPath h) as [[|? ?]|].
  - intros file -> ->. by destruct (rootPath h) as [[|? ?]|].
Qed.

(** C7. Once the task list is built, that is with a workspace folder,
    an active editor and a project root found, it holds the package task
    if and only if the base name of the active file is exactly
    [connections.alan]; the fetch, build and generate-migration tasks
    are in it either way. *)
Theorem package_task_iff `{PathModule} (fuel : nat) (h : host)
    (workspace_root active_file_name alan_root : jsstring) :
  rootPath h = Some workspace_root -> workspace_root <> [] ->
  activeFileName h = Some active_file_name ->
  resolveAlanRoot (fileExists h) fuel (dirname active_file_name)
    = Some (Resolved alan_root) ->
  exists tasks alan,
    getTasksList fuel h = Some tasks /\
    (existsb is_package (result tasks) = true
     <-> basename active_file_name = str "connections.alan") /\
    (package_task ∈ result tasks
     <-> basename active_file_name = str "connections.alan") /\
    fetch_task alan ∈ result tasks /\
    build_task ∈ result tasks /\
    migration_task ∈ result tasks.
Proof.
  intros Hws Hne Hfile Hroot. unfold getTasksList.
  rewrite Hws, Hfile, Hroot. destruct workspace_root as [|c ws]; [done|].
  unfold streq. cbv zeta.
  set (alan := pathToBashPath _ _).
  destruct (decide (basename active_file_name = str "connections.alan"))
    as [Hb|Hb].
  - rewrite (bool_decide_eq_true_2 _ Hb).
    eexists _, alan. split; [reflexivity|]. cbn [result app].
    repeat split; intros; try done;
      repeat first [apply list_elem_of_here | apply list_elem_of_further].
  - rewrite (bool_decide_eq_false_2 _ Hb).
    eexists _, alan. split; [reflexivity|]. cbn [result app].
    repeat split; try done;
      try (repeat first [apply list_elem_of_here | apply list_elem_of_further]).
    intros Hin. exfalso.
    apply elem_of_cons in Hin as [Hin|Hin]; [by vm_compute in Hin|].
    apply elem_of_cons in Hin as [Hin|Hin]; [by vm_compute in Hin|].
    apply elem_of_cons in Hin as [Hin|Hin]; [by vm_compute in Hin|].
    by apply elem_of_nil in Hin.
Qed.

Lemma package_task_iff_witness :
  (exists tasks, getTasksList 4 (host_with "/p/a/connections.alan") = Some tasks
     /\ existsb is_package (result tasks) = true) /\
  (exists tasks, getTasksList 4 (host_with "/p/a/Connections.alan") = Some tasks
     /\ existsb is_package (result tasks) = false).
Proof.
  split.
  - destruct (package_task_iff 4 (host_with "/p/a/connections.alan")
                (str "/p") (str "/p/a/connections.alan") (str "/p")
                eq_refl ltac:(vm_compute; congruence) eq_refl eq_refl)
      as (tasks & alan & Htasks & Hpkg & _).
    exists tasks. split; [exact Htasks|]. apply Hpkg. reflexivity.
  - destruct (package_task_iff 4 (host_with "/p/a/Connections.alan")
                (str "/p") (str "/p/a/Connections.alan") (str "/p")
                eq_refl ltac:(vm_compute; congruence) eq_refl eq_refl)
      as (tasks & alan & Htasks & Hpkg & _).
    exists tasks. split; [exact Htasks|].
    destruct (existsb is_package (result tasks)); [|reflexivity].
    exfalso. destruct Hpkg as [Hpkg _].
    specialize (Hpkg eq_refl). vm_compute in Hpkg. congruence.
Defined.

(** * Further properties *)

(** ** Path conversion: escaping *)

Section EscapeFacts.

(** Under every shell the conversion is the drive rewriting followed
    by the character-wise map. *)
Lemma pathToBashPath_map path shell :
  pathToBashPath path shell
  = replace path re_drive
      (if isWsl shell then [TLit (str "/mnt/"); TCap 1]
       else [TCap 1; TLit (str ":")])
    ≫= to_shell_char.
Proof.
  unfold pathToBashPath, re_backslash, re_space. norm_str.
  by rewrite !replace_g_char, slashes_then_spaces.
Qed.

Lemma bind_cons_shell c s :
  (c :: s) ≫= to_shell_char = to_shell_char c ++ (s ≫= to_shell_char).
Proof. done. Qed.

Lemma well_escaped_map s : well_escaped (s ≫= to_shell_char) = true.
Proof.
  induction s as [|c s IH]; [done|].
  rewrite bind_cons_shell. unfold to_shell_char at 1.
  destruct (92 =? c) eqn:H92; [by simpl|].
  destruct (32 =? c) eqn:H32; [by simpl|].
  simpl. by rewrite H92, H32.
Qed.

Lemma unescape_cons c t :
  (92 =? c) = false -> unescape (c :: t) = c :: unescape t.
Proof. intros Hc. destruct t as [|d t]; [done|]. simpl. by rewrite Hc. Qed.

Lemma unescape_map s : unescape (s ≫= to_shell_char) = to_slash <$> s.
Proof.
  induction s as [|c s IH]; [done|].
  rewrite bind_cons_shell, fmap_cons, <- IH.
  unfold to_shell_char at 1, to_slash.
  destruct (92 =? c) eqn:H92; [by rewrite <- unescape_cons|].
  destruct (32 =? c) eqn:H32.
  - apply N.eqb_eq in H32 as <-. done.
  - by rewrite <- unescape_cons.
Qed.

End EscapeFacts.

(** X1. Whatever the path and the shell, in the result of
    [pathToBashPath] every space has a backslash right before it and
    every backslash a space right behind it: no space is left bare and
    no backslash of the path survives. *)
Theorem pathToBashPath_well_escaped (path shell : jsstring) :
  well_escaped (pathToBashPath path shell) = true.
Proof. rewrite pathToBashPath_map. apply well_escaped_map. Qed.

(** X2. Under a shell other than the WSL bash, taking the backslash
    off every escaped space of the result gives the path with its
    backslashes turned into slashes: apart from the separators the
    conversion loses and adds nothing. *)
Theorem pathToBashPath_unescape (path shell : jsstring) :
  shell <> wsl_bash ->
  unescape (pathToBashPath path shell) = to_slash <$> path.
Proof.
  intros Hs.
  assert (Hw : isWsl shell = false) by by apply bool_decide_eq_false_2.
  rewrite pathToBashPath_map, Hw, replace_drive_same.
  apply unescape_map.
Qed.

Lemma pathToBashPath_unescape_witness :
  unescape (pathToBashPath (str "C:\Program Files\my project") git_bash_x64)
  = str "C:/Program Files/my project".
Proof.
  apply (pathToBashPath_unescape (str "C:\Program Files\my project")
           git_bash_x64).
  vm_compute. congruence.
Defined.

(** ** Path conversion: the drive *)

Section DriveFacts.

(** Whether [/([a-zA-Z]):/] matches right here. *)
Lemma match_at_drive_cases i s :
  match_at re_drive i s =
  match s with
  | c :: d :: s' =>
      if is_letter c && (58 =? d)
      then Some (MState (S (S i)) s' [None; Some [c]])
      else None
  | _ => None
  end.
Proof.
  unfold match_at, re_drive. norm_str. simpl.
  destruct s as [|c [|d s']]; simpl; try done.
  - by destruct (is_letter c).
  - destruct (is_letter c); [|done]. simpl.
    destruct (58 =? d); [|done]. unfold set_capture. simpl.
    by replace (S i - i)%nat with 1%nat by lia.
Qed.

Lemma search_drive_index i j s :
  search re_drive i s = None -> search re_drive j s = None.
Proof.
  revert i j. induction s as [|c s IH]; intros i j; cbn [search];
    rewrite !match_at_drive_cases.
  - done.
  - destruct s as [|d s']; [apply IH|].
    destruct (is_letter c && (58 =? d)); [done|]. apply IH.
Qed.

(** The first letter with a colon behind it is found behind a text
    that holds none. *)
Lemma search_drive_behind i pre d post :
  search re_drive 0 pre = None -> is_letter d = true ->
  search re_drive i (pre ++ d :: 58 :: post)
  = Some ((i + length pre)%nat, [Some [d; 58]; Some [d]]).
Proof.
  intros Hpre Hd. revert i Hpre. induction pre as [|c pre IH]; intros i Hpre.
  - rewrite Nat.add_0_r. simpl app.
    rewrite (search_here _ _ _ (MState (S (S i)) post [None; Some [d]])).
    + unfold match_array. simpl.
      by replace (S (S i) - i)%nat with 2%nat by lia.
    + rewrite match_at_drive_cases. by rewrite Hd.
  - cbn [search] in Hpre. rewrite match_at_drive_cases in Hpre.
    simpl app. cbn [search]. rewrite match_at_drive_cases.
    destruct pre as [|c' pre'].
    + simpl app.
      assert (H58 : (58 =? d) = false) by by apply letter_not.
      cbv beta iota. rewrite H58, andb_false_r.
      specialize (IH (S i)). simpl app in IH.
      rewrite IH; [|done]. simpl. do 2 f_equal. lia.
    + simpl app in *. cbv beta iota.
      destruct (is_letter c && (58 =? c')); [done|].
      rewrite (IH (S i)).
      * simpl. do 2 f_equal. lia.
      * by apply (search_drive_index 1).
Qed.

Lemma map_letter d :
  is_letter d = true -> to_shell_char d = [d].
Proof.
  intros Hd. unfold to_shell_char.
  assert (H32 : (32 =? d) = false) by by apply letter_not.
  assert (H92 : (92 =? d) = false).
  { unfold is_letter, is_lower, is_upper, in_range in Hd.
    apply N.eqb_neq.
    apply orb_prop in Hd as [[Hlo Hhi]%andb_prop|[Hlo Hhi]%andb_prop];
      apply N.leb_le in Hlo, Hhi; lia. }
  by rewrite H92, H32.
Qed.

End DriveFacts.

(** X3. Under the WSL bash the drive rewriting takes the first letter
    that has a colon behind it, wherever it stands, and puts [/mnt/] and
    that letter, in the case it has, in their place; the text before it
    and the text behind it only get the character-wise conversion. *)
Theorem pathToBashPath_wsl_first_drive (pre post : jsstring) (d : char) :
  test re_drive pre = false -> is_letter d = true ->
  pathToBashPath (pre ++ d :: 58 :: post) wsl_bash
  = (pre ≫= to_shell_char) ++ str "/mnt/" ++ d :: (post ≫= to_shell_char).
Proof.
  intros Hpre Hd.
  assert (Hnone : search re_drive 0 pre = None).
  { unfold test in Hpre. apply bool_decide_eq_false_1 in Hpre.
    destruct (search re_drive 0 pre); [|done]. exfalso. by apply Hpre. }
  rewrite pathToBashPath_map, isWsl_true. unfold replace.
  rewrite (search_drive_behind 0 pre d post Hnone Hd).
  norm_str. unfold expand, group. simpl.
  rewrite take_app_length.
  change (d :: 58 :: post) with ([d; 58] ++ post).
  rewrite (drop_app_add pre ([d; 58] ++ post) 2). simpl.
  rewrite bind_app. f_equal. rewrite drop_0.
  change ((47 :: 109 :: 110 :: 116 :: 47 :: d :: post) ≫= to_shell_char)
    with ([47; 109; 110; 116; 47] ++ to_shell_char d ++ (post ≫= to_shell_char)).
  by rewrite (map_letter d Hd).
Qed.

Lemma pathToBashPath_wsl_first_drive_witness :
  pathToBashPath (str "\\?\C:\my docs") wsl_bash
  = str "//?//mnt/C/my\ docs".
Proof.
  apply (pathToBashPath_wsl_first_drive (str "\\?\") (str "\my docs") 67);
    vm_compute; reflexivity.
Defined.

(** X4. A path in which no letter has a colon behind it is converted
    in the same way under every shell: only its backslashes and its
    spaces change. *)
Theorem pathToBashPath_no_drive (path shell : jsstring) :
  test re_drive path = false ->
  pathToBashPath path shell = path ≫= to_shell_char.
Proof.
  intros Hpath.
  assert (Hnone : search re_drive 0 path = None).
  { unfold test in Hpath. apply bool_decide_eq_false_1 in Hpath.
    destruct (search re_drive 0 path); [|done]. exfalso. by apply Hpath. }
  rewrite pathToBashPath_map. unfold replace. by rewrite Hnone.
Qed.

Lemma pathToBashPath_no_drive_witness :
  pathToBashPath (str "/home/me/my project") wsl_bash
  = str "/home/me/my\ project".
Proof.
  apply (pathToBashPath_no_drive (str "/home/me/my project") wsl_bash).
  vm_compute. reflexivity.
Defined.

(** ** Path conversion: back from the WSL mounts *)

Section MountFacts.

Lemma match_at_mnt_cases i s :
  match_at re_mnt i s =
  if startsWith s (str "/mnt/") then
    match drop 5 s with
    | d :: t =>
        if is_lower d && startsWith t (str "/")
        then Some (MState (i + 7) (drop 1 t) [None; Some [d]])
        else None
    | [] => None
    end
  else None.
Proof.
  unfold match_at, re_mnt, lit. simpl ngroups. simpl replicate.
  cbn [rmatch]. rewrite rmatch_rlit.
  destruct (startsWith s (str "/mnt/")); [|done].
  cbn [rmatch rest endIndex captures].
  change (length (str "/mnt/")) with 5%nat.
  destruct (drop 5 s) as [|d t]; [done|].
  destruct (is_lower d); [|done].
  unfold set_capture. cbn [rest endIndex captures]. rewrite rmatch_rlit.
  destruct (startsWith t (str "/")); [|done]. simpl.
  replace (S (i + 5) - (i + 5))%nat with 1%nat by lia. simpl.
  do 2 f_equal. lia.
Qed.

Lemma match_array_mnt i s t d :
  match_array i s (MState (i + 7) t [None; Some [d]])
  = [Some (take 7 s); Some [d]].
Proof.
  unfold match_array. simpl. by replace (i + 7 - i)%nat with 7%nat by lia.
Qed.

(** The index plays no part in this replacement. *)
Lemma replace_from_mnt_index tmpl i j sk s :
  replace_from re_mnt tmpl i sk s = replace_from re_mnt tmpl j sk s.
Proof.
  revert i j sk. induction s as [|c s IH]; intros i j sk.
  - destruct sk; [|done]. cbn [replace_from]. rewrite !match_at_mnt_cases.
    done.
  - destruct sk as [|sk]; cbn [replace_from]; [|apply IH].
    rewrite !match_at_mnt_cases.
    destruct (startsWith (c :: s) (str "/mnt/")); [|by rewrite (IH (S i) (S j))].
    destruct (drop 5 (c :: s)) as [|d t]; [by rewrite (IH (S i) (S j))|].
    destruct (is_lower d && startsWith t (str "/"));
      [|by rewrite (IH (S i) (S j))].
    cbv zeta. rewrite !match_array_mnt.
    destruct (length (group [Some (take 7 (c :: s)); Some [d]] 0));
      by rewrite (IH (S i) (S j)).
Qed.

Lemma search_mnt_includes i s :
  includes s (str "/mnt/") = false -> search re_mnt i s = None.
Proof.
  revert i. induction s as [|c s IH]; intros i Hs; cbn [search];
    rewrite match_at_mnt_cases.
  - done.
  - cbn [includes] in Hs. apply orb_false_elim in Hs as [H0 Hs].
    rewrite H0. by apply IH.
Qed.

End MountFacts.

(** X5. Under the WSL bash, output in which [/mnt/] does not occur
    goes through [bashPathsToWinPaths] unchanged. *)
Theorem bashPathsToWinPaths_no_mount (text : jsstring) :
  includes text (str "/mnt/") = false ->
  bashPathsToWinPaths text wsl_bash = text.
Proof.
  intros Hno. unfold bashPathsToWinPaths, replace_g. rewrite isWsl_true.
  apply replace_from_nomatch. by apply search_mnt_includes.
Qed.

Lemma bashPathsToWinPaths_no_mount_witness :
  bashPathsToWinPaths (str "c:/x/foo.alan error: bad") wsl_bash
  = str "c:/x/foo.alan error: bad".
Proof.
  apply (bashPathsToWinPaths_no_mount (str "c:/x/foo.alan error: bad")).
  vm_compute. reflexivity.
Defined.

(** X6. Under the WSL bash, [/mnt/], a lowercase letter and a slash at
    the head of the output become that letter, a colon and a slash, and
    the rest of the output is rewritten as if it stood alone: the slash
    that closes one mount does not open the next. *)
Theorem bashPathsToWinPaths_mount (d : char) (text : jsstring) :
  is_lower d = true ->
  bashPathsToWinPaths (str "/mnt/" ++ d :: 47 :: text) wsl_bash
  = d :: 58 :: 47 :: bashPathsToWinPaths text wsl_bash.
Proof.
  intros Hd. unfold bashPathsToWinPaths, replace_g. rewrite isWsl_true.
  rewrite (replace_from_match _ _ _ _ _ 6 (match_at_mnt_here 0 d _ Hd)).
  - rewrite (replace_from_mnt_index _ _ 0). norm_str.
    by unfold match_array, expand, group.
  - by norm_str.
  - norm_str. simpl. lia.
Qed.

Lemma bashPathsToWinPaths_mount_witness :
  bashPathsToWinPaths (str "/mnt/c/mnt/d/x.alan") wsl_bash
  = str "c:/mnt/d/x.alan".
Proof.
  pose proof (bashPathsToWinPaths_mount 99 (str "mnt/d/x.alan") eq_refl) as H.
  vm_compute in H. vm_compute. exact H.
Defined.

(** ** The shell resolver: when nothing is found *)

(** X7. [resolveBashShell] returns [undefined] exactly when it has
    shown the error message, and that only happens on [win32], without
    a configured shell and with none of the three files there.  It
    never returns the empty string. *)
Theorem resolveBashShell_undefined (config : option jsstring)
    (platform : jsstring) (fs : jsstring -> bool) :
  ((resolveBashShell config platform fs).2 = None
   <-> ShowErrorMessage no_shell_error ∈ (resolveBashShell config platform fs).1) /\
  ((resolveBashShell config platform fs).2 = None
   <-> (config = None \/ config = Some []) /\ platform = str "win32" /\
       fs wsl = false /\ fs git_bash_x64 = false /\ fs git_bash_x32 = false) /\
  (resolveBashShell config platform fs).2 <> Some [].
Proof.
  assert (Hevent : forall a b : jsstring, ShowErrorMessage a ∈ [Probe b] -> False).
  { intros a b Hin. apply elem_of_cons in Hin as [Hin|Hin]; [done|].
    by apply elem_of_nil in Hin. }
  destruct config as [[|c shell]|]; unfold resolveBashShell, streq;
    unfold io_bind, exists_, showErrorMessage, io_ret.
  2: { simpl. repeat split; try done.
       - by intros ?%elem_of_nil.
       - by intros ([?|?] & _). }
  all: destruct (decide (platform = str "win32")) as [Hp|Hp];
    [rewrite (bool_decide_eq_true_2 _ Hp)
    |rewrite (bool_decide_eq_false_2 _ Hp); simpl; repeat split; try done;
     try (by intros ?%elem_of_nil); by intros (_ & ? & _)].
  all: destruct (fs wsl) eqn:Hw; simpl;
    [repeat split; try done;
     try (by intros ?%Hevent); by intros (_ & _ & ? & _)|].
  all: destruct (fs git_bash_x64) eqn:H64; simpl;
    [repeat split; try done;
     try (intros Hin; apply elem_of_cons in Hin as [Hin|Hin]; [done|];
          by apply Hevent in Hin);
     by intros (_ & _ & _ & ? & _)|].
  all: destruct (fs git_bash_x32) eqn:H32; simpl;
    [repeat split; try done;
     try (intros Hin; apply elem_of_cons in Hin as [Hin|Hin]; [done|];
          apply elem_of_cons in Hin as [Hin|Hin]; [done|];
          by apply Hevent in Hin);
     by intros (_ & _ & _ & _ & ?)|].
  all: repeat split; try done; try (by right); try (by left);
    intros _; repeat first [apply list_elem_of_here | apply list_elem_of_further].
Qed.

(** ** The project-root locator: what an outcome tells *)

Section LocatorSound.
Context `{PathModule}.
Variable fs : jsstring -> bool.

Lemma find_sound root fuel curdir r :
  find fs root fuel curdir = Some r ->
  exists n, (n < fuel)%nat /\
    (forall i, (i < n)%nat ->
       up i curdir <> root /\ fs (join (up i curdir) (str "alan")) = false) /\
    match r with
    | Resolved dir =>
        dir = up n curdir /\ dir <> root /\ fs (join dir (str "alan")) = true
    | Rejected => up n curdir = root
    end.
Proof.
  revert curdir. induction fuel as [|fuel IH]; intros curdir; [done|].
  rewrite find_step.
  destruct (decide (curdir = root)) as [Heq|Hne].
  { intros [= <-]. exists 0%nat. split; [lia|]. split; [intros; lia|done]. }
  destruct (fs (join curdir (str "alan"))) eqn:Hm.
  { intros [= <-]. exists 0%nat. split; [lia|]. split; [intros; lia|done]. }
  intros (n & Hn & Hbelow & Hr)%IH. exists (S n).
  split; [lia|]. split.
  - intros [|i] Hi; [done|]. rewrite <- up_dirname. apply Hbelow. lia.
  - destruct r; by rewrite <- up_dirname.
Qed.

(** Once settled, the outcome stays with more calls allowed. *)
Lemma find_more root fuel fuel' curdir r :
  find fs root fuel curdir = Some r -> (fuel <= fuel')%nat ->
  find fs root fuel' curdir = Some r.
Proof.
  revert fuel' curdir. induction fuel as [|fuel IH]; intros fuel' curdir;
    [done|].
  intros Hr Hle. destruct fuel' as [|fuel']; [lia|].
  rewrite find_step in *.
  destruct (decide (curdir = root)); [done|].
  destruct (fs (join curdir (str "alan"))); [done|].
  apply IH; [done|lia].
Qed.

End LocatorSound.

(** X8. When [resolveAlanRoot] resolves, the directory it gives is the
    start or one of the directories above it, it holds the marker
    [alan], it is not the filesystem root of the start, and no
    directory from the start up to it holds the marker: it is the
    nearest one. *)
Theorem resolveAlanRoot_resolved_nearest `{PathModule}
    (fs : jsstring -> bool) (fuel : nat) (start dir : jsstring) :
  resolveAlanRoot fs fuel start = Some (Resolved dir) ->
  exists n, (n < fuel)%nat /\ dir = up n start /\
    fs (join dir (str "alan")) = true /\ dir <> parse_root start /\
    forall i, (i < n)%nat ->
      fs (join (up i start) (str "alan")) = false /\
      up i start <> parse_root start.
Proof.
  unfold resolveAlanRoot.
  intros (n & Hn & Hbelow & -> & Hne & Hm)%find_sound.
  exists n. repeat split; try done; by apply Hbelow.
Qed.

Lemma resolveAlanRoot_resolved_nearest_witness :
  exists n, (n < 6)%nat /\ str "/p/q" = up n (str "/p/q/r/s") /\
    only_file "/p/q/alan" (join (str "/p/q") (str "alan")) = true /\
    str "/p/q" <> parse_root (str "/p/q/r/s") /\
    forall i, (i < n)%nat ->
      only_file "/p/q/alan" (join (up i (str "/p/q/r/s")) (str "alan")) = false /\
      up i (str "/p/q/r/s") <> parse_root (str "/p/q/r/s").
Proof.
  exact (resolveAlanRoot_resolved_nearest (only_file "/p/q/alan") 6
           (str "/p/q/r/s") (str "/p/q") eq_refl).
Defined.

(** X9. When [resolveAlanRoot] rejects, the walk up from the start has
    met the filesystem root of the start, and no directory on the way
    there held the marker. *)
Theorem resolveAlanRoot_rejected_unmarked `{PathModule}
    (fs : jsstring -> bool) (fuel : nat) (start : jsstring) :
  resolveAlanRoot fs fuel start = Some Rejected ->
  exists n, (n < fuel)%nat /\ up n start = parse_root start /\
    forall i, (i < n)%nat ->
      fs (join (up i start) (str "alan")) = false /\
      up i start <> parse_root start.
Proof.
  unfold resolveAlanRoot.
  intros (n & Hn & Hbelow & Hroot)%find_sound.
  exists n. repeat split; try done; by apply Hbelow.
Qed.

Lemma resolveAlanRoot_rejected_unmarked_witness :
  exists n, (n < 6)%nat /\ up n (str "/p/q") = parse_root (str "/p/q") /\
    forall i, (i < n)%nat ->
      only_file "/x/alan" (join (up i (str "/p/q")) (str "alan")) = false /\
      up i (str "/p/q") <> parse_root (str "/p/q").
Proof.
  exact (resolveAlanRoot_rejected_unmarked (only_file "/x/alan") 6
           (str "/p/q") eq_refl).
Defined.

(** ** Converting a path and then appending to it *)

Section AppendFacts.

Lemma search_drive_no_colon i q :
  forallb (fun c => negb (58 =? c)) q = true -> search re_drive i q = None.
Proof.
  revert i. induction q as [|c q IHq]; intros i Hq;
    cbn [search]; rewrite match_at_drive_cases; [done|].
  simpl in Hq. apply andb_prop in Hq as [Hc Hq].
  destruct q as [|d q']; [by apply IHq|].
  pose proof Hq as Hq'. simpl in Hq'. apply andb_prop in Hq' as [Hd _].
  apply negb_true_iff in Hd. rewrite Hd, andb_false_r.
  by apply IHq.
Qed.

Lemma search_drive_app i p q :
  forallb (fun c => negb (58 =? c)) q = true ->
  search re_drive i (p ++ q) = search re_drive i p.
Proof.
  intros Hq. revert i. induction p as [|c p IH]; intros i.
  - simpl app. rewrite (search_drive_no_colon i q Hq).
    cbn [search]. by rewrite match_at_drive_cases.
  - specialize (IH (S i)).
    simpl app. cbn [search]. rewrite !match_at_drive_cases.
    destruct p as [|d p'].
    + simpl app in *. destruct q as [|d q']; [done|].
      pose proof Hq as Hq'. simpl in Hq'.
      apply andb_prop in Hq' as [Hd%negb_true_iff _].
      by rewrite Hd, andb_false_r.
    + cbn [app] in *. destruct (is_letter c && (58 =? d)); [|done].
      unfold match_array. cbn [endIndex captures].
      by replace (S (S i) - i)%nat with 2%nat by lia.
Qed.

Lemma replace_drive_app tmpl p q :
  forallb (fun c => negb (58 =? c)) q = true ->
  replace (p ++ q) re_drive tmpl = replace p re_drive tmpl ++ q.
Proof.
  intros Hq. unfold replace. rewrite (search_drive_app 0 p q Hq).
  destruct (search re_drive 0 p) as [[j m]|] eqn:Hs; [|done].
  apply search_Some in Hs as (n & y & -> & Hn & Hy & ->).
  apply match_at_drive in Hy as (c & s' & Hd & _ & ->).
  simpl "+". unfold group. simpl.
  assert (Hlen : (n + 2 <= length p)%nat).
  { apply (f_equal length) in Hd. rewrite length_drop in Hd.
    cbn [length] in Hd. unfold jsstring, char in *. lia. }
  unfold jsstring, char in *.
  rewrite take_app_le by lia. rewrite drop_app_le by lia.
  by rewrite <- !app_assoc.
Qed.

Lemma pathToBashPath_append path more shell :
  forallb (fun c => negb (58 =? c)) more = true ->
  pathToBashPath (path ++ more) shell
  = pathToBashPath path shell ++ (more ≫= to_shell_char).
Proof.
  intros Hmore. rewrite !pathToBashPath_map, replace_drive_app by done.
  by rewrite bind_app.
Qed.

End AppendFacts.

(** X10. Converting a path with a text appended that holds no colon
    is converting the path and appending the converted text: the two
    ways in which the source builds its command lines, converting
    [<root>/alan] as a whole or appending to the converted root, give the
    same text. *)
Theorem pathToBashPath_app (path more shell : jsstring) :
  forallb (fun c => negb (58 =? c)) more = true ->
  pathToBashPath (path ++ more) shell
  = pathToBashPath path shell ++ (more ≫= to_shell_char).
Proof. apply pathToBashPath_append. Qed.

Lemma pathToBashPath_app_witness :
  pathToBashPath (str "c:\my project" ++ str "/alan") wsl_bash
  = pathToBashPath (str "c:\my project") wsl_bash ++ str "/alan".
Proof.
  exact (pathToBashPath_app (str "c:\my project") (str "/alan") wsl_bash eq_refl).
Defined.

(** ** The commands behind the tasks *)

Section SpawnFacts.

Lemma resolveBashShell_not_empty config platform fs :
  (resolveBashShell config platform fs).2 <> Some [].
Proof.
  unfold resolveBashShell, io_bind, exists_, showErrorMessage, io_ret.
  destruct config as [[|c shell]|]; try done;
    destruct (streq platform (str "win32")); try done;
    destruct (fs wsl); try done;
    destruct (fs git_bash_x64); try done;
    by destruct (fs git_bash_x32).
Qed.

(** With the shell the resolver gives, the process is started when
    there is a shell, and the call throws when there is none. *)
Lemma spawn_resolved cmd cwd config platform fs :
  settle_spawn
    (executeCommand_spawn cmd cwd (resolveBashShell config platform fs).2)
  = match (resolveBashShell config platform fs).2 with
    | Some sh => Some (Resolved (mkCommand cmd cwd sh))
    | None => Some Rejected
    end.
Proof.
  pose proof (resolveBashShell_not_empty config platform fs) as Hne.
  by destruct (resolveBashShell config platform fs).2 as [[|c sh]|].
Qed.

End SpawnFacts.

(** X11. With a workspace folder open, the task list is pending
    exactly when [build] is, and when the list is empty [build] is
    rejected.  [build] starts its process exactly when the list offers
    the build task and the resolver has found a shell: without a shell
    the task is offered, and running it is rejected. *)
Theorem build_runs_iff_offered_and_shell `{PathModule} (fuel : nat) (h : host)
    (workspace_root : jsstring) :
  rootPath h = Some workspace_root -> workspace_root <> [] ->
  (getTasksList fuel h = None <-> build fuel h = None) /\
  (getTasksList fuel h = Some no_tasks -> build fuel h = Some Rejected) /\
  ((exists c, build fuel h = Some (Resolved c))
   <-> (exists tasks,
          getTasksList fuel h = Some tasks /\ build_task ∈ result tasks) /\
       (resolveBashShell (taskShell h) (platform h) (fileExists h)).2 <> None).
Proof.
  intros Hws Hne. unfold getTasksList, build. rewrite Hws.
  destruct workspace_root as [|c0 ws]; [done|]. cbv zeta.
  destruct (activeFileName h) as [file|].
  2: { split; [by split|]. split; [done|]. split.
       - by intros [c [=]].
       - intros [(tasks & [= <-] & Hin) _]. by apply elem_of_nil in Hin. }
  destruct (resolveAlanRoot (fileExists h) fuel (dirname file))
    as [[root|]|].
  - rewrite spawn_resolved.
    destruct (resolveBashShell (taskShell h) (platform h) (fileExists h)).2
      as [sh|] eqn:Hsh.
    + split; [by destruct (streq (basename file) (str "connections.alan"))|].
      split; [by destruct (streq (basename file) (str "connections.alan"))|].
      split; [|intros _; by eexists].
      intros _. split; [|done].
      destruct (streq (basename file) (str "connections.alan"));
        eexists; (split; [reflexivity|]); cbn [result app];
        repeat first [apply list_elem_of_here | apply list_elem_of_further].
    + split; [by destruct (streq (basename file) (str "connections.alan"))|].
      split; [by destruct (streq (basename file) (str "connections.alan"))|].
      split; [by intros [c [=]]|by intros [_ ?]].
  - split; [by split|]. split; [done|]. split.
    + by intros [c [=]].
    + intros [(tasks & [= <-] & Hin) _]. by apply elem_of_nil in Hin.
  - split; [by split|]. split; [done|]. split.
    + by intros [c [=]].
    + by intros [(tasks & [=] & _) _].
Qed.

Lemma build_runs_iff_offered_and_shell_witness :
  exists c, build 4 (host_with "/p/a/model.alan") = Some (Resolved c).
Proof.
  apply (build_runs_iff_offered_and_shell 4 (host_with "/p/a/model.alan")
           (str "/p") eq_refl ltac:(vm_compute; congruence)).
  split; [|vm_compute; congruence].
  eexists. split; [reflexivity|]. cbn [result].
  repeat first [apply list_elem_of_here | apply list_elem_of_further].
Defined.

(** X12. When the project root is found and the resolver gives a
    shell, [build] starts that shell in the directory of the active
    file on the converted root followed by [/alan build], and
    [package_deployment] starts it in the root on the package command
    with the converted directory of the active file.  When the resolver
    gives no shell, both are rejected and start nothing. *)
Theorem build_and_package_commands `{PathModule} (fuel : nat) (h : host)
    (active_file_name alan_root : jsstring) :
  activeFileName h = Some active_file_name ->
  resolveAlanRoot (fileExists h) fuel (dirname active_file_name)
    = Some (Resolved alan_root) ->
  match (resolveBashShell (taskShell h) (platform h) (fileExists h)).2 with
  | Some shell =>
      build fuel h = Some (Resolved
        (mkCommand (pathToBashPath alan_root shell ++ str "/alan build")
           (dirname active_file_name) shell)) /\
      package_deployment fuel h = Some (Resolved
        (mkCommand
           (str "./alan package ./dist/project.pkg "
            ++ pathToBashPath (dirname active_file_name) shell)
           alan_root shell))
  | None =>
      build fuel h = Some Rejected /\
      package_deployment fuel h = Some Rejected
  end.
Proof.
  intros Hfile Hroot.
  unfold build, package_deployment. rewrite Hfile, Hroot. cbv zeta.
  rewrite !spawn_resolved.
  destruct (resolveBashShell (taskShell h) (platform h) (fileExists h)).2
    as [shell|]; [|done].
  cbn [default]. split; [|done].
  rewrite (pathToBashPath_append alan_root (str "/alan")) by done.
  by rewrite <- app_assoc.
Qed.

Lemma build_and_package_commands_witness :
  build 4 (host_with "/p/my dir/model.alan")
  = Some (Resolved (mkCommand (str "/p/alan build") (str "/p/my dir")
                      linux_osx_bash)) /\
  package_deployment 4 (host_with "/p/my dir/model.alan")
  = Some (Resolved (mkCommand
                      (str "./alan package ./dist/project.pkg /p/my\ dir")
                      (str "/p") linux_osx_bash)).
Proof.
  pose proof (build_and_package_commands (H := posix) 4
                (host_with "/p/my dir/model.alan")
                (str "/p/my dir/model.alan") (str "/p") eq_refl
                ltac:(vm_compute; reflexivity)) as Hrun.
  exact Hrun.
Defined.

(** ** Lines without a position *)

Section PlainFacts.
Implicit Types (k : continuation) (caps : list (option jsstring)).



Lemma str_match_other hd mid sev msg tl :
  is_path_head hd = true -> forallb is_dot mid = true ->
  is_severity sev = true ->
  forallb is_dot msg = true -> stops is_dot tl = true ->
  includes (plain_tail sev msg tl) (str ".alan ") = false ->
  exists whole,
    str_match ((hd ++ mid ++ str ".alan") ++ plain_tail sev msg tl) re_other
    = Some [whole; Some (hd ++ mid ++ str ".alan"); Some sev; Some msg].
Proof.
  intros Hhd Hmid Hsev Hmsg Htl Hnot.
  rewrite <- !app_assoc.
  unfold re_other. rewrite str_match_anchored.
  match goal with |- context [match_at ?r 0%nat ?s] =>
    eassert (Hm : match_at r 0 s = Some _) end.
  { unfold match_at.
    change (replicate _ None) with (replicate 4 (@None jsstring)).
    rewrite rmatch_start.
    unfold plain_tail in *.
    apply (rmatch_file (str " ")); [done..|].
    apply rmatch_severity_then; [done|]. rewrite rmatch_lit_then.
    apply rmatch_group_star; [done..|]. reflexivity. }
  rewrite Hm. by eexists.
Qed.

End PlainFacts.





(** ** Lines that are passed over *)

Section IgnoredFacts.

Lemma match_at_unlike_path ext r ln :
  starts_like_path ln = false ->
  match_at (RStart >>> RGroup 1 (path_head >>> RStar is_dot >>> rlit ext) >>> r)
    0 ln = None.
Proof.
  intros Hln. unfold match_at, path_head. norm_str.
  cbn [rmatch endIndex Nat.eqb rlit rest captures].
  destruct ln as [|c [|d t]]; simpl in Hln; [done|..].
  - apply orb_false_elim in Hln as [H47 _]. rewrite H47.
    by destruct (is_letter c).
  - apply orb_false_elim in Hln as [H47 Hc]. rewrite H47.
    destruct (is_letter c); [|done]. simpl in Hc. by rewrite Hc.
Qed.

Lemma classify_unlike_path ln :
  starts_like_path ln = false -> classify ln = None.
Proof.
  intros Hln. unfold classify, re_range, re_locat, re_link, re_other.
  rewrite !str_match_anchored. unfold re_file, lit.
  rewrite (match_at_unlike_path _ _ ln Hln). cbn [fmap option_fmap option_map].
  rewrite (match_at_unlike_path _ _ ln Hln). cbn [fmap option_fmap option_map].
  rewrite (match_at_unlike_path _ _ ln Hln). cbn [fmap option_fmap option_map].
  by rewrite (match_at_unlike_path _ _ ln Hln).
Qed.

Lemma scan_line_dropped st ln :
  classify ln = None -> startsWith ln [tab] = false -> scan_line st ln = st.
Proof.
  intros Hc Ht. rewrite scan_line_classify, Hc, Ht.
  by destruct (current_diagnostic st).
Qed.

End IgnoredFacts.

(** X15. A line that starts neither with [/], nor with a letter and a
    colon, nor with a tab is passed over: it matches none of the four
    patterns, whatever else it holds, and the parser is left as it was.
    An empty line, an indented line and a line that reports on a
    relative path are such lines. *)
Theorem unlike_path_line_dropped (pre : list jsstring) (ln : jsstring) :
  starts_like_path ln = false -> startsWith ln [tab] = false ->
  is_diagnostic_line ln = false /\
  scan_lines (pre ++ [ln]) = scan_lines pre.
Proof.
  intros Hln Htab.
  pose proof (classify_unlike_path ln Hln) as Hc. split.
  - by apply classify_is_diagnostic_line.
  - rewrite scan_lines_snoc. destruct (thrown (scan_lines pre)); [done|].
    by apply scan_line_dropped.
Qed.

Lemma unlike_path_line_dropped_witness :
  is_diagnostic_line (str "src/model.alan from 1:1 to 1:2 error: bad") = false /\
  scan_lines ([str "/x/a.alan error: first"]
              ++ [str "src/model.alan from 1:1 to 1:2 error: bad"])
  = scan_lines [str "/x/a.alan error: first"].
Proof.
  exact (unlike_path_line_dropped [str "/x/a.alan error: first"]
           (str "src/model.alan from 1:1 to 1:2 error: bad") eq_refl eq_refl).
Defined.

(** ** The entries of a scan *)

Section EntryFacts.






End EntryFacts.




(** ** Output that comes in chunks *)

Section ChunkFacts.

Lemma foldl_on_data shell acc datas :
  isWsl shell = false ->
  foldl (on_data shell) acc datas = acc ++ mjoin datas.
Proof.
  intros Hw. revert acc. induction datas as [|data datas IH]; intros acc.
  - by rewrite app_nil_r.
  - simpl. rewrite IH. unfold on_data, bashPathsToWinPaths. rewrite Hw.
    by rewrite <- app_assoc.
Qed.

End ChunkFacts.

(** X18. Under a shell other than the WSL bash the diagnostics of a
    run depend on the text the process wrote and not on how it was cut
    into chunks: they are those of the chunks put together. *)
Theorem diagnostics_of_chunks (shell : jsstring) (datas : list jsstring) :
  shell <> wsl_bash ->
  executeCommand_diagnostics shell datas = parse_output (mjoin datas).
Proof.
  intros Hs.
  assert (Hw : isWsl shell = false) by by apply bool_decide_eq_false_2.
  unfold executeCommand_diagnostics. by rewrite foldl_on_data.
Qed.

Lemma diagnostics_of_chunks_witness :
  executeCommand_diagnostics linux_osx_bash
    [str "/x/a.alan err"; str "or: cut in two"]
  = parse_output (str "/x/a.alan error: cut in two").
Proof.
  apply (diagnostics_of_chunks linux_osx_bash
           [str "/x/a.alan err"; str "or: cut in two"]).
  vm_compute. congruence.
Defined.

(** A mount that a chunk boundary cuts. *)
Section CutFacts.

Lemma replace_mnt_open d :
  replace_from re_mnt [TCap 1; TLit (str ":/")] 0 0 (str "/mnt/" ++ [d])
  = str "/mnt/" ++ [d].
Proof.
  apply replace_from_nomatch. norm_str. simpl app.
  cbn [search]. rewrite !match_at_mnt_cases. norm_str.
  cbn [startsWith drop N.eqb Pos.eqb andb].
  rewrite !andb_false_r. by destruct (109 =? d).
Qed.

End CutFacts.

(** X19. Under the WSL bash every chunk is rewritten on its own: when
    one chunk ends with [/mnt/] and a lowercase letter and the next
    begins with the slash, the mount stays in the accumulated output as
    it is, although in the output taken as a whole it would have become
    the drive. *)
Theorem wsl_mount_cut_by_chunks (d : char) (text : jsstring) :
  is_lower d = true ->
  includes (47 :: text) (str "/mnt/") = false ->
  foldl (on_data wsl_bash) [] [str "/mnt/" ++ [d]; 47 :: text]
  = str "/mnt/" ++ d :: 47 :: text /\
  bashPathsToWinPaths (str "/mnt/" ++ d :: 47 :: text) wsl_bash
  = d :: 58 :: 47 :: text.
Proof.
  intros Hd Hno. split.
  - assert (Hopen : bashPathsToWinPaths (str "/mnt/" ++ [d]) wsl_bash
                     = str "/mnt/" ++ [d]).
    { unfold bashPathsToWinPaths, replace_g. rewrite isWsl_true.
      apply replace_mnt_open. }
    assert (Hrest : bashPathsToWinPaths (47 :: text) wsl_bash = 47 :: text).
    { unfold bashPathsToWinPaths, replace_g. rewrite isWsl_true.
      apply replace_from_nomatch. by apply search_mnt_includes. }
    cbn [foldl]. unfold on_data. rewrite Hopen, Hrest.
    by rewrite app_nil_l, <- app_assoc.
  - assert (Htext : includes text (str "/mnt/") = false).
    { cbn [includes] in Hno. by apply orb_false_elim in Hno as [_ ?]. }
    unfold bashPathsToWinPaths, replace_g. rewrite isWsl_true.
    rewrite (replace_from_match _ _ _ _ _ 6 (match_at_mnt_here 0 d _ Hd)).
    + rewrite (replace_from_nomatch _ _ _ _ (search_mnt_includes _ _ Htext)).
      norm_str. by unfold match_array, expand, group.
    + by norm_str.
    + norm_str. simpl. lia.
Qed.

Lemma wsl_mount_cut_by_chunks_witness :
  foldl (on_data wsl_bash) [] [str "/mnt/c"; str "/x/a.alan error: bad"]
  = str "/mnt/c/x/a.alan error: bad" /\
  bashPathsToWinPaths (str "/mnt/c/x/a.alan error: bad") wsl_bash
  = str "c:/x/a.alan error: bad".
Proof.
  exact (wsl_mount_cut_by_chunks 99 (str "x/a.alan error: bad")
           eq_refl eq_refl).
Defined.

(** ** What a match tells *)

Lemma startsWith_app_same_inv (s l : jsstring) :
  startsWith s l = true -> s = l ++ drop (length l) s.
Proof.
  revert s. induction l as [|c l IH]; intros [|d s]; simpl; try done.
  intros [Hc Hs]%andb_prop. apply N.eqb_eq in Hc as ->.
  by rewrite <- (IH s Hs).
Qed.

Section InversionFacts.
Implicit Types (k : continuation) (caps : list (option jsstring)).

(** A successful repetition has stopped somewhere on a run. *)
Lemma rstar_inv p e s caps k z :
  rstar p e s caps k = Some z ->
  exists n, (n <= length s)%nat /\ forallb p (take n s) = true /\
    k (MState (e + n) (drop n s) caps) = Some z.
Proof.
  revert e. induction s as [|c s IH]; intros e; simpl.
  - intros Hz. exists 0%nat. by rewrite Nat.add_0_r.
  - assert (Hhere : k (MState e (c :: s) caps) = Some z ->
        exists n, (n <= S (length s))%nat /\ forallb p (take n (c :: s)) = true /\
          k (MState (e + n) (drop n (c :: s)) caps) = Some z).
    { intros Hz. exists 0%nat. rewrite Nat.add_0_r. split; [lia|done]. }
    destruct (p c) eqn:Hc; [|done].
    destruct (rstar p (S e) s caps k) as [z'|] eqn:Hs; [|done].
    intros [= ->]. destruct (IH _ Hs) as (n & Hn & Hp & Hk).
    exists (S n). simpl. rewrite Hc. rewrite Nat.add_succ_r.
    split; [lia|done].
Qed.

(** A successful match has called its continuation, with captures that
    differ from the ones before only in the groups of the pattern. *)
Lemma rmatch_inv r x k z :
  rmatch r x k = Some z ->
  exists y, k y = Some z /\
    length (captures y) = length (captures x) /\
    forall i, sets r i = false -> captures y !! i = captures x !! i.
Proof.
  revert x k. induction r as [c|p| | |r1 IH1 r2 IH2|r1 IH1 r2 IH2|p|p|j r1 IH1];
    intros x k; simpl.
  - destruct (rest x) as [|d s']; [done|]. destruct (c =? d); [|done].
    intros Hz. by eexists.
  - destruct (rest x) as [|d s']; [done|]. destruct (p d); [|done].
    intros Hz. by eexists.
  - destruct (Nat.eqb (endIndex x) 0); [|done]. intros Hz. by eexists.
  - intros Hz. by eexists.
  - intros (y1 & (y2 & Hk & Hlen2 & Hc2)%IH2 & Hlen1 & Hc1)%IH1.
    exists y2. split; [done|]. split; [congruence|].
    intros i [H1 H2]%orb_false_elim. by rewrite Hc2, Hc1.
  - destruct (rmatch r1 x k) as [z'|] eqn:H1.
    + intros [= ->]. apply IH1 in H1 as (y & Hk & Hlen & Hc).
      exists y. split; [done|]. split; [done|].
      intros i [Hi _]%orb_false_elim. by apply Hc.
    + intros (y & Hk & Hlen & Hc)%IH2.
      exists y. split; [done|]. split; [done|].
      intros i [_ Hi]%orb_false_elim. by apply Hc.
  - intros (n & _ & _ & Hk)%rstar_inv. by eexists.
  - destruct (rest x) as [|d s']; [done|]. destruct (p d); [|done].
    intros (n & _ & _ & Hk)%rstar_inv. by eexists.
  - intros (y & Hk & Hlen & Hc)%IH1.
    exists (set_capture j x y). split; [done|]. unfold set_capture. simpl.
    split; [by rewrite length_insert|].
    intros i [Hij Hi]%orb_false_elim. apply Nat.eqb_neq in Hij.
    rewrite list_lookup_insert_ne by done. by apply Hc.
Qed.

(** The start of a path. *)
Lemma rmatch_path_head_inv e s caps k z :
  rmatch path_head (MState e s caps) k = Some z ->
  exists hd s', s = hd ++ s' /\ is_path_head hd = true /\
    k (MState (e + length hd) s' caps) = Some z.
Proof.
  unfold path_head. norm_str. simpl.
  destruct s as [|c s1]; [done|].
  destruct (47 =? c) eqn:H47.
  - destruct (k (MState (S e) s1 caps)) as [z'|] eqn:Hk.
    + intros [= ->]. exists [c], s1. simpl. rewrite H47, Nat.add_1_r.
      by repeat split.
    + destruct (is_letter c) eqn:Hc; [|done].
      destruct s1 as [|d s2]; [done|]. destruct (58 =? d) eqn:Hd; [|done].
      intros Hz. exists [c; d], s2. simpl. rewrite Hc, Hd.
      replace (e + 2)%nat with (S (S e)) by lia. by repeat split.
  - destruct (is_letter c) eqn:Hc; [|done].
    destruct s1 as [|d s2]; [done|]. destruct (58 =? d) eqn:Hd; [|done].
    intros Hz. exists [c; d], s2. simpl. rewrite Hc, Hd.
    replace (e + 2)%nat with (S (S e)) by lia. by repeat split.
Qed.

(** The file group: what it has captured when the whole pattern has
    matched. *)
Lemma rmatch_file_inv ext r s caps z :
  (1 < length caps)%nat -> sets r 1 = false ->
  rmatch (re_file ext >>> r) (MState 0 s caps) Some = Some z ->
  exists hd mid,
    captures z !! 1%nat = Some (Some (hd ++ mid ++ str ext)) /\
    is_path_head hd = true /\ forallb is_dot mid = true.
Proof.
  intros Hlen Hsets. unfold re_file. cbn [rmatch].
  intros (hd & s1 & -> & Hhd & Hstar)%rmatch_path_head_inv.
  cbn [rmatch endIndex rest captures] in Hstar.
  apply rstar_inv in Hstar as (n & Hn & Hmid & Hlit).
  unfold lit in Hlit. rewrite rmatch_rlit in Hlit.
  destruct (startsWith (drop n s1) (str ext)) eqn:Hext; [|done].
  unfold set_capture in Hlit. cbn [endIndex rest captures] in Hlit.
  apply rmatch_inv in Hlit as (y & [= ->] & _ & Hcaps).
  exists hd, (take n s1). split; [|done].
  etrans; [exact (Hcaps 1%nat Hsets)|]. cbn [captures].
  rewrite list_lookup_insert_eq by done.
  do 2 f_equal. rewrite Nat.sub_0_r.
  apply startsWith_app_same_inv in Hext.
  rewrite <- (take_drop n s1) at 1. rewrite Hext.
  replace (hd ++ take n s1 ++ str ext ++ drop (length (str ext)) (drop n s1))
    with ((hd ++ take n s1 ++ str ext) ++ drop (length (str ext)) (drop n s1))
    by by rewrite <- !app_assoc.
  apply take_app_length'. rewrite !length_app, length_take.
  unfold jsstring, char in *. lia.
Qed.

End InversionFacts.

Section FileFacts.

Lemma is_dot_letter c : is_letter c = true -> is_dot c = true.
Proof.
  unfold is_letter, is_lower, is_upper, is_dot, is_line_terminator.
  intros H. apply negb_true_iff. apply not_true_is_false. intros Hc.
  repeat (apply orb_prop in Hc as [Hc|Hc]); apply N.eqb_eq in Hc; subst c;
    by vm_compute in H.
Qed.

Lemma reported_file hd mid ext :
  is_path_head hd = true -> forallb is_dot mid = true ->
  ext = ".alan"%string \/ ext = ".link"%string ->
  is_reported_file (hd ++ mid ++ str ext) = true.
Proof.
  intros Hhd Hmid Hext. unfold is_reported_file.
  assert (Hdots : forallb is_dot (str ext) = true /\
    (endsWith (hd ++ mid ++ str ext) (str ".alan")
     || endsWith (hd ++ mid ++ str ext) (str ".link")) = true).
  { unfold endsWith. rewrite !reverse_app.
    destruct Hext as [-> | ->]; (split; [by vm_compute|]);
      rewrite <- !app_assoc, startsWith_app_same; [done|by rewrite orb_true_r]. }
  destruct Hdots as [Hdext ->]. rewrite andb_true_r.
  rewrite !forallb_app, Hmid, Hdext, !andb_true_r.
  destruct hd as [|c [|d [|??]]]; try done.
  - simpl in Hhd. apply N.eqb_eq in Hhd as <-.
    simpl. by vm_compute.
  - simpl in Hhd. apply andb_prop in Hhd as [Hc Hd].
    cbn [app starts_like_path forallb]. rewrite Hc, Hd.
    rewrite (is_dot_letter c Hc). apply N.eqb_eq in Hd as <-.
    rewrite orb_true_r. by vm_compute.
Qed.

(** The file of a match of a pattern that starts with [^] and the file
    group. *)
Lemma str_match_file ext r ln m :
  sets r 1 = false ->
  ext = ".alan"%string \/ ext = ".link"%string ->
  str_match ln (RStart >>> re_file ext >>> r) = Some m ->
  is_reported_file (group m 1) = true.
Proof.
  intros Hsets Hext. rewrite str_match_anchored. unfold match_at.
  rewrite rmatch_start.
  destruct (rmatch _ _ _) as [z|] eqn:Hz; [|done]. intros [= <-].
  apply rmatch_file_inv in Hz as (hd & mid & Hcap & Hhd & Hmid);
    [|rewrite length_replicate; unfold re_file; cbn [ngroups]; lia|done].
  unfold group, match_array. rewrite list_lookup_insert_ne by done.
  unfold jsstring, char in *. rewrite Hcap. simpl. by apply reported_file.
Qed.

Lemma getSeverity_not_hint sev : getSeverity sev <> Hint.
Proof. unfold getSeverity. by repeat case_match. Qed.

Lemma entry_inv file r msg sev f d :
  entry file r msg sev = Some (f, d) -> f = file /\ severity d = sev.
Proof.
  unfold entry. destruct r as [r0|]; [|done]. simpl.
  destruct msg; [done|]. by intros [= <- <-].
Qed.

(** What a line reports is a file of the shape above, with a severity
    that [getSeverity] gives. *)
Lemma classify_reported ln f d :
  classify ln = Some (Some (f, d)) ->
  is_reported_file f = true /\ severity d <> Hint.
Proof.
  unfold classify.
  destruct (str_match ln re_range) as [m|] eqn:H1.
  { intros [= [-> ->]%entry_inv]. split; [|apply getSeverity_not_hint].
    revert H1. apply str_match_file; [done|by left]. }
  destruct (str_match ln re_locat) as [m|] eqn:H2.
  { intros [= [-> ->]%entry_inv]. split; [|apply getSeverity_not_hint].
    revert H2. apply str_match_file; [done|by left]. }
  destruct (str_match ln re_link) as [m|] eqn:H3.
  { intros [= [-> ->]%entry_inv]. split; [|apply getSeverity_not_hint].
    revert H3. apply str_match_file; [done|by right]. }
  destruct (str_match ln re_other) as [m|] eqn:H4; [|done].
  intros [= [-> ->]%entry_inv]. split; [|apply getSeverity_not_hint].
  revert H4. apply str_match_file; [done|by left].
Qed.

Lemma record_line_reported l ln :
  Forall (fun e : Uri * Diagnostic =>
            is_reported_file e.1 = true /\ severity e.2 <> Hint) l ->
  Forall (fun e : Uri * Diagnostic =>
            is_reported_file e.1 = true /\ severity e.2 <> Hint)
    (record_line l ln).
Proof.
  intros Hl. unfold record_line.
  destruct (classify ln) as [[[f d]|]|] eqn:Hc; [|done|].
  - apply Forall_app. split; [done|].
    apply Forall_singleton. by apply classify_reported in Hc.
  - destruct (startsWith ln [tab]); [|done].
    rewrite Forall_lookup in Hl. apply Forall_lookup. intros i e.
    destruct (decide (i = (length l - 1)%nat)) as [->|Hi].
    + rewrite list_lookup_alter_eq.
      destruct (l !! (length l - 1)%nat) as [[f d]|] eqn:He; [|done].
      intros [= <-]. exact (Hl _ _ He).
    + rewrite list_lookup_alter_ne by done. apply Hl.
Qed.

End FileFacts.

(** X20. Whatever the compiler prints, in whatever chunks and for
    whatever shell, every entry handed to the diagnostics collection is
    for a file that starts like a path ([/], or a drive letter and a
    colon), holds no line terminator and ends in [.alan] or [.link]; and
    no diagnostic has the severity [Hint]. *)
Theorem diagnostics_for_reported_files (shell : jsstring)
    (datas : list jsstring) :
  Forall (fun e : Uri * list Diagnostic =>
            is_reported_file e.1 = true /\
            Forall (fun d => severity d <> Hint) e.2)
    (executeCommand_diagnostics shell datas).
Proof.
  unfold executeCommand_diagnostics, parse_output.
  generalize (split newline (foldl (on_data shell) [] datas)).
  intros lines. rewrite read_diagnostics_scan.
  destruct (existsb throws lines); [by constructor|].
  unfold installed, record_lines. apply Forall_fmap.
  assert (H : Forall (fun e : Uri * Diagnostic =>
            is_reported_file e.1 = true /\ severity e.2 <> Hint)
            (foldl record_line [] lines)).
  { induction lines as [|ln lines IH] using rev_ind; [by constructor|].
    rewrite foldl_app. simpl. by apply record_line_reported. }
  eapply Forall_impl; [exact H|]. intros [f d] [Hf Hd]. simpl.
  split; [done|]. by apply Forall_singleton.
Qed.

(** ** The earlier extension against [tasks.ts] *)

Section VersionFacts.
Context `{PathModule}.

Lemma find_versions fs root fuel curdir :
  Extension.find fs root fuel curdir
  = match find fs root fuel curdir with
    | Some (Resolved dir) => Some (Resolved (join dir (str "alan")))
    | other => other
    end.
Proof.
  revert curdir. induction fuel as [|fuel IH]; intros curdir; [done|].
  simpl. destruct (streq curdir root); [done|].
  destruct (fs (join curdir (str "alan"))); [done|]. apply IH.
Qed.

Lemma isWsl_versions config platform fs :
  default [] config = [] ->
  Extension.isWsl
    (default [] (Extension.resolveBashShell config platform fs).2)
  = isWsl (default [] (resolveBashShell config platform fs).2).
Proof.
  intros Hconfig. destruct config as [[|c shell]|]; try done;
    unfold Extension.resolveBashShell, resolveBashShell,
      Extension.existsSync, exists_, showErrorMessage, io_bind, io_ret;
    destruct (streq platform (str "win32")); try done;
    destruct (fs wsl); try done;
    destruct (fs git_bash_x64); try done;
    by destruct (fs git_bash_x32).
Qed.

End VersionFacts.

(** X21. The locator of the earlier extension and the one of
    [tasks.ts] search alike: they are pending together and rejected
    together, and where the newer one resolves to a directory the
    earlier one resolves to the [alan] file in that directory. *)
Theorem resolveAlan_marker_of_root `{PathModule} (fs : jsstring -> bool)
    (fuel : nat) (file_dir : jsstring) :
  Extension.resolveAlan fs fuel file_dir
  = match resolveAlanRoot fs fuel file_dir with
    | Some (Resolved dir) => Some (Resolved (join dir (str "alan")))
    | other => other
    end.
Proof. unfold Extension.resolveAlan, resolveAlanRoot. apply find_versions. Qed.

(** X22. The synchronous shell resolver of the earlier extension and
    the one of [tasks.ts] probe the same files in the same order and
    show the same notification.  Their results differ in two
    situations only, both without a configured shell: off Windows the
    earlier one gives [undefined] where the newer gives [/bin/bash], and
    on Windows with [wsl.exe] present each gives its own WSL shell. *)
Theorem resolveBashShell_versions (config : option jsstring)
    (platform : jsstring) (fs : jsstring -> bool) :
  (Extension.resolveBashShell config platform fs).1
  = (resolveBashShell config platform fs).1 /\
  ((Extension.resolveBashShell config platform fs).2
   = (resolveBashShell config platform fs).2
   <-> default [] config <> [] \/
       (streq platform (str "win32") = true /\ fs wsl = false)) /\
  (default [] config = [] -> streq platform (str "win32") = false ->
   (Extension.resolveBashShell config platform fs).2 = None /\
   (resolveBashShell config platform fs).2 = Some linux_osx_bash) /\
  (default [] config = [] -> streq platform (str "win32") = true ->
   fs wsl = true ->
   (Extension.resolveBashShell config platform fs).2 = Some Extension.wsl_bash /\
   (resolveBashShell config platform fs).2 = Some wsl_bash).
Proof.
  unfold Extension.resolveBashShell, resolveBashShell,
    Extension.existsSync, exists_, showErrorMessage, io_bind, io_ret.
  destruct config as [[|c shell]|]; simpl default;
    destruct (streq platform (str "win32"));
    destruct (fs wsl); destruct (fs git_bash_x64); destruct (fs git_bash_x32);
    cbn [fst snd app];
    (split; [reflexivity|]); (split; [|by split]);
    (split; [intros Heq; first [by left | by right | by vm_compute in Heq]
            |intros [Hc|[H1 H2]]; done]).
Qed.

(** X23. Without a configured shell the two versions convert every
    path to the same text, each with the shell its own resolver gave:
    the change of the WSL shell's file and of the result off Windows
    did not change a command line. *)
Theorem normalizePath_pathToBashPath (config : option jsstring)
    (platform : jsstring) (fs : jsstring -> bool) (path : jsstring) :
  default [] config = [] ->
  Extension.normalizePath path
    (default [] (Extension.resolveBashShell config platform fs).2)
  = pathToBashPath path (default [] (resolveBashShell config platform fs).2).
Proof.
  intros Hconfig. unfold Extension.normalizePath, pathToBashPath.
  by rewrite (isWsl_versions config platform fs Hconfig).
Qed.

Lemma normalizePath_pathToBashPath_witness :
  Extension.normalizePath (str "c:\my project")
    (default [] (Extension.resolveBashShell None (str "win32")
                   (fun f => streq f wsl)).2)
  = str "/mnt/c/my\ project" /\
  pathToBashPath (str "c:\my project")
    (default [] (resolveBashShell None (str "win32")
                   (fun f => streq f wsl)).2)
  = str "/mnt/c/my\ project".
Proof.
  pose proof (normalizePath_pathToBashPath None (str "win32")
                (fun f => streq f wsl) (str "c:\my project") eq_refl) as H.
  split; [|rewrite <- H]; by vm_compute.
Defined.

(** ** Lines on which a constructor throws *)

Section ThrowFacts.

Lemma read_diagnostics_throws pre ln post :
  throws ln = true -> read_diagnostics (scan_lines (pre ++ ln :: post)) = [].
Proof.
  intros Hln. rewrite read_diagnostics_scan, existsb_app. simpl.
  by rewrite Hln, orb_true_r.
Qed.

Lemma parseInt_zero d :
  is_number d = true -> decimal d = 0%Z -> parseInt d = Int 0.
Proof.
  intros Hd Hz. rewrite parseInt_number by (done || by rewrite Hz).
  by rewrite Hz.
Qed.

Lemma newPosition_zero l c :
  is_number l = true -> is_number c = true ->
  decimal l = 0%Z \/ decimal c = 0%Z ->
  newPosition (pred1 (parseInt l)) (pred1 (parseInt c)) = None.
Proof.
  intros Hl Hc [Hz|Hz].
  - rewrite (parseInt_zero l Hl Hz). by unfold newPosition.
  - rewrite (parseInt_zero c Hc Hz). unfold newPosition. simpl.
    by rewrite orb_true_r.
Qed.


End ThrowFacts.

(** X24. A point-qualified line (of the shape of C5) whose line number
    or column number is 0 makes the [Position] constructor throw on
    [-1]: whatever the lines before and behind it report, the
    collection is left empty. *)
Theorem zero_position_line_clears (pre post : list jsstring)
    (hd mid l1 c1 sev msg tl : jsstring) :
  is_path_head hd = true -> forallb is_dot mid = true ->
  is_number l1 = true -> is_number c1 = true ->
  is_severity sev = true ->
  forallb is_dot msg = true -> stops is_dot tl = true ->
  str_match ((hd ++ mid ++ str ".alan") ++ locat_tail l1 c1 sev msg tl) re_range
    = None ->
  includes (locat_tail l1 c1 sev msg tl) (str ".alan at ") = false ->
  decimal l1 = 0%Z \/ decimal c1 = 0%Z ->
  read_diagnostics
    (scan_lines
       (pre ++ ((hd ++ mid ++ str ".alan") ++ locat_tail l1 c1 sev msg tl)
            :: post))
  = [].
Proof.
  intros Hhd Hmid Hl1 Hc1 Hsev Hmsg Htl Hrange Hnot Hzero.
  destruct (str_match_locat hd mid l1 c1 sev msg tl) as [whole Hm];
    [done..|].
  apply read_diagnostics_throws. unfold throws, classify.
  rewrite Hrange, Hm. unfold group.
  cbn [lookup list_lookup mjoin option_join default].
  unfold newRange. by rewrite newPosition_zero.
Qed.

Lemma zero_position_line_clears_witness :
  parse_output (str "/x/b.alan error: first" ++ [newline]
                ++ str "/x/a.alan at 0:1 error: m" ++ [newline]
                ++ str "/x/c.alan error: last")
  = [].
Proof.
  exact (zero_position_line_clears [str "/x/b.alan error: first"]
           [str "/x/c.alan error: last"] (str "/") (str "x/a")
           (str "0") (str "1") (str "error") (str "m") []
           eq_refl eq_refl eq_refl eq_refl eq_refl eq_refl eq_refl eq_refl
           eq_refl (or_introl eq_refl)).
Defined.

(** X25. A line without position (of the shape of X14) whose message is
    empty makes the [Diagnostic] constructor throw: whatever the lines
    before and behind it report, the collection is left empty. *)
Theorem empty_message_line_clears (pre post : list jsstring)
    (hd mid sev tl : jsstring) :
  is_path_head hd = true -> forallb is_dot mid = true ->
  is_severity sev = true -> stops is_dot tl = true ->
  str_match ((hd ++ mid ++ str ".alan") ++ plain_tail sev [] tl) re_range
    = None ->
  str_match ((hd ++ mid ++ str ".alan") ++ plain_tail sev [] tl) re_locat
    = None ->
  str_match ((hd ++ mid ++ str ".alan") ++ plain_tail sev [] tl) re_link
    = None ->
  includes (plain_tail sev [] tl) (str ".alan ") = false ->
  read_diagnostics
    (scan_lines
       (pre ++ ((hd ++ mid ++ str ".alan") ++ plain_tail sev [] tl) :: post))
  = [].
Proof.
  intros Hhd Hmid Hsev Htl Hrange Hlocat Hlink Hnot.
  destruct (str_match_other hd mid sev [] tl) as [whole Hm]; [done..|].
  apply read_diagnostics_throws. unfold throws, classify.
  by rewrite Hrange, Hlocat, Hlink, Hm.
Qed.

Lemma empty_message_line_clears_witness :
  parse_output (str "/x/b.alan error: first" ++ [newline]
                ++ str "/x/a.alan error: ")
  = [].
Proof.
  exact (empty_message_line_clears [str "/x/b.alan error: first"] []
           (str "/") (str "x/a") (str "error") []
           eq_refl eq_refl eq_refl eq_refl eq_refl eq_refl eq_refl eq_refl).
Defined.


